(** * haproxy-srv: the configurator of [start.js]

    A shallow embedding of the DNS-SRV discovery, rendering and reload
    pipeline of [start.js], and the properties of it that the specification
    states.

    Conventions of the embedding.
    - The JavaScript [Map] [dnsCache.srv] is an insertion-ordered association
      list with unique keys ([JSMap]); a stored [undefined] is [Undefined].
    - A promise is its final state: [Pending] (never settled), [Fulfilled] or
      [Rejected].
    - The collaborators that are not part of the program (the DNS resolver,
      the [ip], [diff], [handlebars] and [haproxy] packages, the file system,
      the template file) are parameters: the functions that are fixed for a
      process are [Variable]s of the section, the answers that can change
      from one cycle to the next are the fields of [collaborators].
    - [generateContext] takes the object [promises] for a map of the keys,
      which it is for every name but [__proto__]; [generateContext_object]
      follows the object as it is, with either behaviour of
      [RSVP.hashSettled] on an object whose prototype was replaced, and the
      two agree on a cache of distinct keys without that name
      ([generateContext_object_eq], [regenerateConfiguration_object_agrees]).
    - Reading the configuration file and running the compiled template do
      not throw.
    - The DNS resolver answers every query, by an error or by a result; the
      queries of one key are listed together, in the order of the cache.
    - Refresh cycles run one after the other.
    - Every call that leaves the process is recorded as an [event]. *)

From Stdlib Require Import ZArith String Ascii List Bool Lia DecimalString.
From stdpp Require Import base list sorting.
From Stdlib Require Import Permutation Sorted OrderedTypeEx.
Import ListNotations.
Open Scope string_scope.
Open Scope list_scope.

(** ** The JavaScript [Map] *)

Module JSMap.
Section Def.
Context {V : Type}.

Definition t := list (string * V).

(** [new Map()] *)
Definition empty : t := [].

(** [map.get(k)]: [None] when the key is absent. *)
Fixpoint get (m : t) (k : string) : option V :=
  match m with
  | [] => None
  | (k', v') :: m' => if String.eqb k' k then Some v' else get m' k
  end.

(** [map.set(k, v)]: replaces the value of a present key where it stands,
    appends an absent key. *)
Fixpoint set (m : t) (k : string) (v : V) : t :=
  match m with
  | [] => [(k, v)]
  | (k', v') :: m' =>
      if String.eqb k' k then (k', v) :: m' else (k', v') :: set m' k v
  end.

(** The keys, in iteration order. *)
Definition keys (m : t) : list string := map fst m.
End Def.
Arguments t : clear implicits.
End JSMap.

(** ** Data model *)

Definition error := string.

(** One answer of [dns.resolveSrv]. *)
Record SrvRecord := mkSrv {
  srv_name : string;
  srv_port : Z;
  srv_priority : Z;
  srv_weight : Z
}.

(** The same entry after [resolveIP] added its [ip] property;
    [address[0]] of an empty answer is [undefined], hence the option. *)
Record Endpoint := mkEndpoint {
  name : string;
  ip : option string;
  port : Z;
  priority : Z;
  weight : Z
}.

(** What a key of [dnsCache.srv] holds: [undefined] or an array of entries. *)
Inductive value :=
| Undefined
| Arr (entries : list Endpoint).

(** JavaScript truthiness of such a value: every array is truthy, the empty
    one too. *)
Definition truthy (v : value) : bool :=
  match v with
  | Undefined => false
  | Arr _ => true
  end.

Definition cache := JSMap.t value.

(** [map.get(dnsName)] as the program sees it: [undefined] for an absent key
    and for a key that holds [undefined]. *)
Definition cache_get (m : cache) (dnsName : string) : value :=
  match JSMap.get m dnsName with
  | Some v => v
  | None => Undefined
  end.

(** Node's [(err, result)] callback. *)
Inductive callback (A : Type) :=
| CbErr (err : error)
| CbOk (result : A).
Arguments CbErr {A} err.
Arguments CbOk {A} result.

Inductive promise (A : Type) :=
| Pending
| Fulfilled (v : A)
| Rejected (reason : error).
Arguments Pending {A}.
Arguments Fulfilled {A} v.
Arguments Rejected {A} reason.

Definition settled {A} (p : promise A) : bool :=
  match p with
  | Pending => false
  | _ => true
  end.

(** An entry of the object [RSVP.hashSettled] fulfils with. *)
Inductive settlement (A : Type) :=
| StFulfilled (v : A)
| StRejected (reason : error).
Arguments StFulfilled {A} v.
Arguments StRejected {A} reason.

(** Calls that leave the process. *)
Inductive event :=
| EvResolveSrv (dnsName : string)
| EvResolve (hostName : string)
| EvWriteFile (content : string)
| EvReload
| EvVerify
| EvStart
| EvSetInterval
| EvCycleCompleted
| EvReportSuccess
| EvLogStats
| EvExit (code : Z).

(** One element of [jsdiff]'s change list; a missing [added]/[removed]
    property is falsy. *)
Record change := mkChange {
  ch_value : string;
  added : bool;
  removed : bool
}.

(** One piece of the compiled template: literal text, or a block call of the
    [dns-srv] helper with its argument and the block [options.fn]. *)
Inductive piece :=
| TText (text : string)
| TDnsSrv (dnsName : string) (fn : value -> string).

(** The answers of the outside world during one cycle. *)
Record collaborators := mkCollab {
  dns_resolveSrv : string -> callback (list SrvRecord);
  dns_resolve : string -> callback (list string);
  fs_writeFileSync : option error;
  haproxy_reload : option error;
  haproxy_verify : option error;
  haproxy_start : option error
}.

(** The mutable globals of the program and the configuration file. *)
Record world := mkWorld {
  dnsCache_srv : cache;
  configurationFile : option string;
  haproxyRunning : bool
}.

(** ** Promise combinators *)

(** [Promise.all]: rejected as soon as one member is, pending while one is
    pending, fulfilled with all the values in order otherwise.  Which
    rejection wins depends on timing; the model takes the first in the list. *)
Fixpoint promise_all {A} (ps : list (promise A)) : promise (list A) :=
  match ps with
  | [] => Fulfilled []
  | p :: ps' =>
      match p, promise_all ps' with
      | Rejected e, _ => Rejected e
      | _, Rejected e => Rejected e
      | Pending, _ => Pending
      | _, Pending => Pending
      | Fulfilled a, Fulfilled l => Fulfilled (a :: l)
      end
  end.

(** [RSVP.hashSettled]: settles once every member has settled, and keeps each
    member's own outcome under its key. *)
Fixpoint hashSettled {A} (promises : list (string * promise A))
  : option (list (string * settlement A)) :=
  match promises with
  | [] => Some []
  | (k, p) :: rest =>
      match p, hashSettled rest with
      | Fulfilled v, Some r => Some ((k, StFulfilled v) :: r)
      | Rejected e, Some r => Some ((k, StRejected e) :: r)
      | _, _ => None
      end
  end.

(** [Array.prototype.sort(compareFn)]: a stable sort; [b] goes before [a]
    only when [compareFn(a, b) > 0]. *)
Section Sort.
Context {A : Type} (compareFn : A -> A -> Z).

Fixpoint sort_insert (x : A) (l : list A) : list A :=
  match l with
  | [] => [x]
  | y :: l' =>
      if (0 <? compareFn x y)%Z then y :: sort_insert x l' else x :: l
  end.

Fixpoint array_sort (l : list A) : list A :=
  match l with
  | [] => []
  | x :: l' => sort_insert x (array_sort l')
  end.
End Sort.

(** ** Concrete collaborators

    Stand-ins for the packages and for the outside world, used to run the
    program on concrete inputs. *)

Module Sample.

Definition is_digit (c : ascii) : bool :=
  (48 <=? nat_of_ascii c)%nat && (nat_of_ascii c <=? 57)%nat.

Fixpoint all_chars (f : ascii -> bool) (s : string) : bool :=
  match s with
  | EmptyString => true
  | String c s' => f c && all_chars f s'
  end.

Fixpoint any_char (f : ascii -> bool) (s : string) : bool :=
  match s with
  | EmptyString => false
  | String c s' => f c || any_char f s'
  end.

(** The fields of a string between its dots. *)
Fixpoint fields (s : string) : list string :=
  match s with
  | EmptyString => [EmptyString]
  | String c s' =>
      if Ascii.eqb c "."%char then EmptyString :: fields s'
      else
        match fields s' with
        | [] => [String c EmptyString]
        | f :: fs => String c f :: fs
        end
  end.

Definition octet (f : string) : bool :=
  (1 <=? String.length f)%nat && (String.length f <=? 3)%nat
  && all_chars is_digit f.

(** [ip.isV4Format] tests [/^(\d{1,3}\.){3,3}\d{1,3}$/]. *)
Definition isV4Format (s : string) : bool :=
  match fields s with
  | [a; b; c; d] => octet a && octet b && octet c && octet d
  | _ => false
  end.

Definition is_hex_or_colon (c : ascii) : bool :=
  is_digit c || Ascii.eqb c ":"%char
  || ((97 <=? nat_of_ascii c)%nat && (nat_of_ascii c <=? 102)%nat)
  || ((65 <=? nat_of_ascii c)%nat && (nat_of_ascii c <=? 70)%nat).

(** A coarse stand-in for [ip.isV6Format]: hexadecimal groups and colons,
    with a colon. *)
Definition isV6Format (s : string) : bool :=
  all_chars is_hex_or_colon s && any_char (Ascii.eqb ":"%char) s.

(** [localeCompare] on plain lower-case names: the ordinal order. *)
Definition localeCompare (a b : string) : Z :=
  match String.compare a b with
  | Lt => (-1)%Z
  | Eq => 0%Z
  | Gt => 1%Z
  end.

(** A stand-in for [jsdiff.diffTrimmedLines] that knows only whether the
    two texts are the same: one common part, or a removal and an addition. *)
Definition diffTrimmedLines (old new : string) : list change :=
  if String.eqb old new then [mkChange new false false]
  else [mkChange old false true; mkChange new true false].

Definition show (z : Z) : string := NilZero.string_of_int (Z.to_int z).

Definition nl : string := String (ascii_of_nat 10) EmptyString.

Definition server (e : Endpoint) : string :=
  ("  server " ++ name e ++ " "
   ++ match ip e with Some a => a | None => "undefined" end
   ++ ":" ++ show (port e) ++ nl)%string.

(** A block such as
    [backend web {{#each this}} server {{name}} {{ip}}:{{port}} {{/each}}]. *)
Definition backend (title : string) (v : value) : string :=
  match v with
  | Undefined => ("backend " ++ title ++ nl)%string
  | Arr entries =>
      ("backend " ++ title ++ nl
       ++ fold_right append "" (List.map server entries))%string
  end.

Definition template : list piece :=
  [TText ("global" ++ nl)%string; TDnsSrv "web.svc" (backend "web");
   TDnsSrv "db.svc" (backend "db")].

Definition addresses (hostName : string) : callback (list string) :=
  if String.eqb hostName "a.node" then CbOk ["10.0.0.1"]
  else if String.eqb hostName "b.node" then CbOk ["10.0.0.2"; "10.0.0.3"]
  else CbErr "ENOTFOUND".

(** [web.svc] has two named targets, [db.svc] does not resolve, [lit.svc]
    answers with a literal address, one target of [half.svc] has no
    address, [none.svc] has no target, and [dup.svc] has one host on two
    ports. *)
Definition services (dnsName : string) : callback (list SrvRecord) :=
  if String.eqb dnsName "web.svc" then
    CbOk [mkSrv "b.node" 80 0 0; mkSrv "a.node" 80 0 0]
  else if String.eqb dnsName "lit.svc" then
    CbOk [mkSrv "10.0.0.9" 5432 0 0]
  else if String.eqb dnsName "half.svc" then
    CbOk [mkSrv "a.node" 80 0 0; mkSrv "missing.node" 80 0 0]
  else if String.eqb dnsName "none.svc" then CbOk []
  else if String.eqb dnsName "dup.svc" then
    CbOk [mkSrv "a.node" 8080 0 0; mkSrv "a.node" 8081 0 0]
  else CbErr "ENOTFOUND".

(** The same answers, the two records of [dup.svc] in the other order. *)
Definition services_swapped (dnsName : string) : callback (list SrvRecord) :=
  if String.eqb dnsName "dup.svc" then
    CbOk [mkSrv "a.node" 8081 0 0; mkSrv "a.node" 8080 0 0]
  else services dnsName.

Definition calm : collaborators :=
  mkCollab services addresses None None None None.

(** The same answers, the two records of [web.svc] in the other order. *)
Definition services_reordered (dnsName : string) : callback (list SrvRecord) :=
  if String.eqb dnsName "web.svc" then
    CbOk [mkSrv "a.node" 80 0 0; mkSrv "b.node" 80 0 0]
  else services dnsName.

Definition calm_reordered : collaborators :=
  mkCollab services_reordered addresses None None None None.

(** A template with a block for [dup.svc]. *)
Definition template_dup : list piece := [TDnsSrv "dup.svc" (backend "dup")].

Definition calm_swapped : collaborators :=
  mkCollab services_swapped addresses None None None None.


Definition fresh : world := mkWorld JSMap.empty None false.

(** Answers in which the name [__proto__] has a target, and a cache that
    holds that name next to [db.svc]. *)
Definition services_proto (dnsName : string) : callback (list SrvRecord) :=
  if String.eqb dnsName "__proto__" then CbOk [mkSrv "a.node" 80 0 0]
  else services dnsName.

Definition calm_proto : collaborators :=
  mkCollab services_proto addresses None None None None.

Definition scanned_proto : cache :=
  [("db.svc", Undefined); ("__proto__", Undefined)].




Definition offline : collaborators :=
  mkCollab (fun _ => CbErr "ECONNREFUSED") (fun _ => CbErr "ECONNREFUSED")
    None None None None.

Definition scanned : cache := [("web.svc", Undefined); ("db.svc", Undefined)].

End Sample.

(** ** The program *)

Section Configurator.
Set Default Proof Using "Type".
(** [ip.isV4Format], [ip.isV6Format] *)
Variable isV4Format isV6Format : string -> bool.
(** [String.prototype.localeCompare] *)
Variable localeCompare : string -> string -> Z.
(** [jsdiff.diffTrimmedLines(old, new, {ignoreWhitespace: true})] *)
Variable diffTrimmedLines : string -> string -> list change.
(** [handlebars.compile] of [haproxy.cfg.template] *)
Variable template : list piece.

Definition with_ip (entry : SrvRecord) (address : option string) : Endpoint :=
  {| name := srv_name entry; ip := address; port := srv_port entry;
     priority := srv_priority entry; weight := srv_weight entry |}.

(** [resolveIP] *)
Definition resolveIP (o : collaborators) (entry : SrvRecord)
  : list event * promise Endpoint :=
  let name := srv_name entry in
  if isV4Format name || isV6Format name then
    ([], Fulfilled (with_ip entry (Some name)))
  else
    ([EvResolve name],
     match dns_resolve o name with
     | CbErr err => Rejected err
     | CbOk address => Fulfilled (with_ip entry (head address))
     end).

(** [resolveSRV] *)
Definition resolveSRV (o : collaborators) (dnsName : string)
  : list event * promise (list Endpoint) :=
  match dns_resolveSrv o dnsName with
  | CbErr err => ([EvResolveSrv dnsName], Rejected err)
  | CbOk result =>
      if (0 <? length result)%nat then
        let result :=
          array_sort (fun a b => localeCompare (srv_name a) (srv_name b)) result in
        let lookups := map (resolveIP o) result in
        (EvResolveSrv dnsName :: concat (map fst lookups),
         promise_all (map snd lookups))
      else ([EvResolveSrv dnsName], Fulfilled [])
  end.

(** The body of the [Object.keys(result).map] callback of
    [generateContext]. *)
Definition store (services : cache) (kr : string * settlement (list Endpoint))
  : cache :=
  match kr with
  | (key, StFulfilled v) => JSMap.set services key (Arr v)
  | (key, StRejected _) => JSMap.set services key Undefined
  end.

(** [generateContext]: the events, the cache afterwards, and the promise
    (of the empty context object). *)
Definition generateContext (o : collaborators) (services : cache)
  : list event * cache * promise unit :=
  let calls := map (fun kv => (fst kv, resolveSRV o (fst kv))) services in
  let promises := map (fun c => (fst c, snd (snd c))) calls in
  let events := concat (map (fun c => fst (snd c)) calls) in
  match hashSettled promises with
  | Some result => (events, foldl store services result, Fulfilled tt)
  | None => (events, services, Pending)
  end.

(** The dry-run [dns-srv] helper of [checkTemplate]: records the key with
    the value [undefined] and returns [undefined]. *)
Definition gatherDataHelper_dryRun (services : cache) (dnsName : string)
  : cache * option string :=
  (JSMap.set services dnsName Undefined, None).

(** The productive [dns-srv] helper: [None] is the [undefined] a call
    returns when it ignores its block. *)
Definition gatherDataHelper (map : cache) (dnsName : string)
  (fn : value -> string) : option string :=
  if negb (truthy (cache_get map dnsName)) then None
  else Some (fn (cache_get map dnsName)).

(** What handlebars appends for a helper's return value. *)
Definition emitted (r : option string) : string :=
  match r with
  | Some s => s
  | None => ""
  end.

(** [template()] under the dry-run helper: only the cache matters. *)
Definition dryRun (services : cache) : cache :=
  foldl (fun m p =>
           match p with
           | TText _ => m
           | TDnsSrv dnsName _ => fst (gatherDataHelper_dryRun m dnsName)
           end) services template.

Definition render_piece (map : cache) (p : piece) : string :=
  match p with
  | TText text => text
  | TDnsSrv dnsName fn => emitted (gatherDataHelper map dnsName fn)
  end.

(** Running a compiled template under the productive helper. *)
Definition render_with (t : list piece) (map : cache) : string :=
  fold_right append "" (List.map (render_piece map) t).

(** [template(context)] under the productive helper. *)
Definition render (map : cache) : string := render_with template map.

(** [checkTemplate] *)
Definition checkTemplate (w : world) : world :=
  {| dnsCache_srv := dryRun (dnsCache_srv w);
     configurationFile := configurationFile w;
     haproxyRunning := haproxyRunning w |}.

(** The test of [regenerateConfiguration] on the change list; reading
    [diff[0]] of an empty list throws. *)
Definition changesDetected (diff : list change) : callback bool :=
  match diff with
  | [] => CbErr "TypeError: Cannot read property 'added' of undefined"
  | d0 :: _ => CbOk ((1 <? length diff)%nat || (added d0 || removed d0))
  end.

Definition set_cache (w : world) (c : cache) : world :=
  {| dnsCache_srv := c;
     configurationFile := configurationFile w;
     haproxyRunning := haproxyRunning w |}.

Definition set_file (w : world) (content : string) : world :=
  {| dnsCache_srv := dnsCache_srv w;
     configurationFile := Some content;
     haproxyRunning := haproxyRunning w |}.

Definition set_running (w : world) : world :=
  {| dnsCache_srv := dnsCache_srv w;
     configurationFile := configurationFile w;
     haproxyRunning := true |}.

(** [regenerateConfiguration] *)
Definition regenerateConfiguration (o : collaborators) (w : world)
  : list event * world * promise unit :=
  match generateContext o (dnsCache_srv w) with
  | (events, services, Fulfilled _) =>
      let w := set_cache w services in
      let originalConfig :=
        match configurationFile w with Some s => s | None => "" end in
      let newConfig := render (dnsCache_srv w) in
      let diff := diffTrimmedLines originalConfig newConfig in
      match changesDetected diff with
      | CbErr err => (events, w, Rejected err)
      | CbOk true =>
          match fs_writeFileSync o with
          | Some err => (events ++ [EvWriteFile newConfig], w, Rejected err)
          | None =>
              let w := set_file w newConfig in
              if haproxyRunning w then
                (events ++ [EvWriteFile newConfig; EvReload], w,
                 match haproxy_reload o with
                 | Some err => Rejected err
                 | None => Fulfilled tt
                 end)
              else (events ++ [EvWriteFile newConfig], w, Fulfilled tt)
          end
      | CbOk false => (events, w, Pending)
      end
  | (events, services, Pending) => (events, set_cache w services, Pending)
  | (events, services, Rejected err) =>
      (events, set_cache w services, Rejected err)
  end.

(** [verifyConfiguration] *)
Definition verifyConfiguration (o : collaborators) (w : world)
  : list event * world * promise unit :=
  match configurationFile w with
  | None =>
      ([], w, Rejected "Configuration file can not be found file=/etc/haproxy.cfg")
  | Some _ =>
      ([EvVerify], w,
       match haproxy_verify o with
       | Some err => Rejected err
       | None => Fulfilled tt
       end)
  end.

(** [startHAProxy] *)
Definition startHAProxy (o : collaborators) (w : world)
  : list event * world * promise unit :=
  match haproxy_start o with
  | Some err => ([EvStart], w, Rejected err)
  | None => ([EvStart], set_running w, Fulfilled tt)
  end.

(** [scheduleRefresh]: installs the timer and fulfils. *)
Definition scheduleRefresh (w : world) : list event * world * promise unit :=
  ([EvSetInterval], w, Fulfilled tt).

(** [reportSuccess] and [logStats] *)
Definition reportSuccess (w : world) : list event * world * promise unit :=
  ([EvReportSuccess], w, Fulfilled tt).
Definition logStats (w : world) : list event * world * promise unit :=
  ([EvLogStats], w, Fulfilled tt).

(** [onFailure]: [process.exit(-1)] *)
Definition onFailure (reason : error) : list event := [EvExit (-1)].

(** [p.then(f)]: [f] runs only once [p] has fulfilled. *)
Definition andThen (r : list event * world * promise unit)
  (f : world -> list event * world * promise unit)
  : list event * world * promise unit :=
  match r with
  | (events, w, Fulfilled _) =>
      match f w with
      | (events', w', p) => (events ++ events', w', p)
      end
  | (events, w, Pending) => (events, w, Pending)
  | (events, w, Rejected err) => (events, w, Rejected err)
  end.

(** [p.catch(onFailure)] at the end of a chain. *)
Definition catchFailure (r : list event * world * promise unit)
  : list event * world * promise unit :=
  match r with
  | (events, w, Rejected err) => (events ++ onFailure err, w, Rejected err)
  | _ => r
  end.

(** The main sequence, up to the first timer tick. *)
Definition main (o : collaborators) (w : world)
  : list event * world * promise unit :=
  catchFailure
    (andThen (andThen (andThen (andThen (andThen
       (regenerateConfiguration o (checkTemplate w))
       (verifyConfiguration o))
       (startHAProxy o))
       scheduleRefresh)
       reportSuccess)
       logStats).

(** The callback of [setInterval] in [scheduleRefresh]: one refresh cycle. *)
Definition refreshCycle (o : collaborators) (w : world)
  : list event * world * promise unit :=
  catchFailure
    (andThen (regenerateConfiguration o w)
       (fun w => ([EvCycleCompleted], w, Fulfilled tt))).

Definition exited (events : list event) : bool :=
  existsb (fun e => match e with EvExit _ => true | _ => false end) events.

(** Successive refresh cycles, one collaborator answer set per tick, until
    the process exits. *)
Fixpoint refreshCycles (os : list collaborators) (w : world)
  : list event * world :=
  match os with
  | [] => ([], w)
  | o :: os' =>
      match refreshCycle o w with
      | (events, w', _) =>
          if exited events then (events, w')
          else
            match refreshCycles os' w' with
            | (events', w'') => (events ++ events', w'')
            end
      end
  end.

(** *** Vocabulary of the statements *)

Definition events_of {W P} (r : list event * W * P) : list event := fst (fst r).
Definition state_of {W P} (r : list event * W * P) : W := snd (fst r).
Definition promise_of {W P} (r : list event * W * P) : P := snd r.

(** What [generateContext] stores for a settled lookup. *)
Definition stored (p : promise (list Endpoint)) : value :=
  match p with
  | Fulfilled v => Arr v
  | _ => Undefined
  end.

(** The text on disk as a cycle reads it, the cache after the lookups of
    the cycle, the text the cycle renders and the change list it gets. *)
Definition originalConfig (w : world) : string :=
  match configurationFile w with Some s => s | None => "" end.
Definition resolved (o : collaborators) (w : world) : cache :=
  state_of (generateContext o (dnsCache_srv w)).
Definition newConfig (o : collaborators) (w : world) : string :=
  render (resolved o w).
Definition cycleDiff (o : collaborators) (w : world) : list change :=
  diffTrimmedLines (originalConfig w) (newConfig o w).

(** The DNS queries of a cycle. *)
Definition lookups (o : collaborators) (w : world) : list event :=
  events_of (generateContext o (dnsCache_srv w)).



Definition is_dns (e : event) : Prop :=
  match e with
  | EvResolveSrv _ | EvResolve _ => True
  | _ => False
  end.

(** What [store] puts under a key for one settlement. *)
Definition settled_value (s : settlement (list Endpoint)) : value :=
  match s with
  | StFulfilled v => Arr v
  | StRejected _ => Undefined
  end.

(** The comparison [resolveSRV] sorts with, and the order it stands for. *)
Definition byName (a b : SrvRecord) : Z :=
  localeCompare (srv_name a) (srv_name b).
Definition name_le (a b : SrvRecord) : Prop := (byName a b <= 0)%Z.

(** The template without the [dns-srv] blocks of one key. *)
Definition without (dnsName : string) (t : list piece) : list piece :=
  List.filter (fun p => match p with
                        | TDnsSrv k _ => negb (String.eqb k dnsName)
                        | TText _ => true
                        end) t.

(** The keys of the [dns-srv] blocks of a template, in their order. *)
Definition templateKeys (t : list piece) : list string :=
  flat_map (fun p => match p with
                     | TDnsSrv k _ => [k]
                     | TText _ => []
                     end) t.

(** The text of a template outside its [dns-srv] blocks. *)
Definition staticText (t : list piece) : string :=
  fold_right append ""
    (flat_map (fun p => match p with
                        | TText text => [text]
                        | TDnsSrv _ _ => []
                        end) t).

(** The dry run of any compiled template; [dryRun] is the one of
    [template]. *)
Definition scan (t : list piece) (services : cache) : cache :=
  foldl (fun m p =>
           match p with
           | TText _ => m
           | TDnsSrv dnsName _ => fst (gatherDataHelper_dryRun m dnsName)
           end) services t.

(** The test of [resolveIP] on a name. *)
Definition literal (hostName : string) : bool :=
  isV4Format hostName || isV6Format hostName.

(** The [ip] that [resolveIP] gives a name: the name itself when it is an
    address, the first address of the answer otherwise. *)
Definition address_of (o : collaborators) (hostName : string) : option string :=
  if literal hostName then Some hostName
  else
    match dns_resolve o hostName with
    | CbOk address => head address
    | CbErr _ => None
    end.

(** The order of the endpoints by name. *)
Definition endpoint_le (a b : Endpoint) : Prop :=
  (localeCompare (name a) (name b) <= 0)%Z.

Definition is_srv_query (e : event) : bool :=
  match e with
  | EvResolveSrv _ => true
  | _ => false
  end.

(** *** The object [promises]

    [generateContext] collects the promises of a cycle in a plain object,
    [promises[dnsName] = resolveSRV(dnsName)], and joins them with
    [RSVP.hashSettled].  For every name but one, the object is the map that
    [generateContext] above takes it for.  The name [__proto__] is the
    accessor of [Object.prototype]: assigning a promise to it replaces the
    prototype of [promises] and creates no property, so the join never sees
    that key.  The definitions below follow the object as it is. *)

Definition proto_key : string := "__proto__".

(** A plain object used as a dictionary: its own properties, in creation
    order, and whether an assignment has replaced its prototype. *)
Record js_object (A : Type) := mkObject {
  own_properties : JSMap.t A;
  prototype_replaced : bool
}.
Arguments mkObject {A} own_properties prototype_replaced.
Arguments own_properties {A} j.
Arguments prototype_replaced {A} j.

(** [obj[k] = v] for a value [v] that is an object. *)
Definition object_assign {A} (obj : js_object A) (k : string) (v : A)
  : js_object A :=
  if String.eqb k proto_key then mkObject (own_properties obj) true
  else mkObject (JSMap.set (own_properties obj) k v) (prototype_replaced obj).

(** What [RSVP.hashSettled] does with its argument first.  RSVP 3 reads the
    own properties of the object at once ([false]).  RSVP 4 passes it through
    [Promise.resolve] ([true]): an object that inherits [then] from a promise
    is taken for a thenable, the call of [then] on it throws, and the join
    rejects. *)
Variable hashSettled_adopts : bool.

(** The object after [services.forEach(...)]. *)
Definition promises_of (o : collaborators) (services : cache)
  : js_object (promise (list Endpoint)) :=
  foldl (fun obj kv =>
           object_assign obj (fst kv) (snd (resolveSRV o (fst kv))))
    (mkObject [] false) services.

(** The SRV queries are sent while [forEach] runs, one per key; the address
    queries follow when the answers arrive (listed by key; their order
    among keys depends on the arrival of the answers). *)
Definition srv_queries (services : cache) : list event :=
  map EvResolveSrv (JSMap.keys services).

Definition address_queries (o : collaborators) (services : cache) : list event :=
  List.filter (fun e => negb (is_srv_query e))
    (concat (map (fun kv => fst (resolveSRV o (fst kv))) services)).

(** [generateContext], with [promises] as the object it is.  When the join
    rejects, the rejection is handled before any answer arrives. *)
Definition generateContext_object (o : collaborators) (services : cache)
  : list event * cache * promise unit :=
  let promises := promises_of o services in
  if hashSettled_adopts && prototype_replaced promises then
    (srv_queries services, services,
     Rejected "TypeError: Method Promise.prototype.then called on incompatible receiver")
  else
    match hashSettled (own_properties promises) with
    | Some result =>
        (srv_queries services ++ address_queries o services,
         foldl store services result, Fulfilled tt)
    | None =>
        (srv_queries services ++ address_queries o services, services, Pending)
    end.

(** [regenerateConfiguration] over [generateContext_object]. *)
Definition regenerateConfiguration_object (o : collaborators) (w : world)
  : list event * world * promise unit :=
  match generateContext_object o (dnsCache_srv w) with
  | (events, services, Fulfilled _) =>
      let w := set_cache w services in
      let originalConfig :=
        match configurationFile w with Some s => s | None => "" end in
      let newConfig := render (dnsCache_srv w) in
      let diff := diffTrimmedLines originalConfig newConfig in
      match changesDetected diff with
      | CbErr err => (events, w, Rejected err)
      | CbOk true =>
          match fs_writeFileSync o with
          | Some err => (events ++ [EvWriteFile newConfig], w, Rejected err)
          | None =>
              let w := set_file w newConfig in
              if haproxyRunning w then
                (events ++ [EvWriteFile newConfig; EvReload], w,
                 match haproxy_reload o with
                 | Some err => Rejected err
                 | None => Fulfilled tt
                 end)
              else (events ++ [EvWriteFile newConfig], w, Fulfilled tt)
          end
      | CbOk false => (events, w, Pending)
      end
  | (events, services, Pending) => (events, set_cache w services, Pending)
  | (events, services, Rejected err) =>
      (events, set_cache w services, Rejected err)
  end.

(** The main sequence and the refresh cycles over it. *)
Definition main_object (o : collaborators) (w : world)
  : list event * world * promise unit :=
  catchFailure
    (andThen (andThen (andThen (andThen (andThen
       (regenerateConfiguration_object o (checkTemplate w))
       (verifyConfiguration o))
       (startHAProxy o))
       scheduleRefresh)
       reportSuccess)
       logStats).

Definition refreshCycle_object (o : collaborators) (w : world)
  : list event * world * promise unit :=
  catchFailure
    (andThen (regenerateConfiguration_object o w)
       (fun w => ([EvCycleCompleted], w, Fulfilled tt))).

Fixpoint refreshCycles_object (os : list collaborators) (w : world)
  : list event * world :=
  match os with
  | [] => ([], w)
  | o :: os' =>
      match refreshCycle_object o w with
      | (events, w', _) =>
          if exited events then (events, w')
          else
            match refreshCycles_object os' w' with
            | (events', w'') => (events ++ events', w'')
            end
      end
  end.

(** What holds of the cache from the template scan on: [__proto__] holds
    [undefined], and where the join rejects for a cache with that key, every
    key holds [undefined]. *)
Definition scanned_invariant (c : cache) : Prop :=
  cache_get c proto_key = Undefined
  /\ (hashSettled_adopts = true -> In proto_key (JSMap.keys c) ->
      forall k, cache_get c k = Undefined).


(** *** The [Map] *)

Lemma JSMap_get_set_eq (m : cache) k v :
  JSMap.get (JSMap.set m k v) k = Some v.
Proof.
  induction m as [|[k' v'] m IH]; simpl.
  - now rewrite String.eqb_refl.
  - destruct (String.eqb k' k) eqn:E; simpl; rewrite E; auto.
Qed.

Lemma JSMap_get_set_ne (m : cache) k k' v :
  k <> k' -> JSMap.get (JSMap.set m k v) k' = JSMap.get m k'.
Proof.
  intros Hne. induction m as [|[k0 v0] m IH]; simpl.
  - destruct (String.eqb k k') eqn:E; [apply String.eqb_eq in E; contradiction | reflexivity].
  - destruct (String.eqb k0 k) eqn:E; simpl.
    + apply String.eqb_eq in E. subst k0.
      destruct (String.eqb k k') eqn:E'; [apply String.eqb_eq in E'; contradiction | reflexivity].
    + now rewrite IH.
Qed.

Lemma JSMap_keys_set_in (m : cache) k v :
  In k (JSMap.keys m) -> JSMap.keys (JSMap.set m k v) = JSMap.keys m.
Proof.
  induction m as [|[k0 v0] m IH]; simpl; intros Hin; [contradiction|].
  destruct (String.eqb k0 k) eqn:E; simpl; [reflexivity|].
  f_equal. apply IH. destruct Hin as [->|Hin]; [|exact Hin].
  now rewrite String.eqb_refl in E.
Qed.

Lemma JSMap_get_keys (m : cache) k :
  In k (JSMap.keys m) <-> JSMap.get m k <> None.
Proof.
  induction m as [|[k0 v0] m IH]; simpl.
  - split; [contradiction | congruence].
  - destruct (String.eqb k0 k) eqn:E.
    + apply String.eqb_eq in E. split; [discriminate | now left].
    + apply String.eqb_neq in E. rewrite <- IH. split; [intros [?|?]; [contradiction|assumption] | now right].
Qed.

(** *** The lookups always settle *)

Lemma resolveIP_settled o entry : settled (snd (resolveIP o entry)) = true.
Proof.
  unfold resolveIP. destruct (isV4Format _ || isV6Format _); simpl; [reflexivity|].
  now destruct (dns_resolve o _).
Qed.

Lemma promise_all_settled {A} (ps : list (promise A)) :
  (forall p, In p ps -> settled p = true) -> settled (promise_all ps) = true.
Proof.
  induction ps as [|p ps IH]; simpl; intros H; [reflexivity|].
  assert (Hp : settled p = true) by (apply H; now left).
  assert (Hps : settled (promise_all ps) = true) by (apply IH; intros; apply H; now right).
  destruct p, (promise_all ps); simpl in *; congruence.
Qed.

Lemma resolveSRV_settled o dnsName : settled (snd (resolveSRV o dnsName)) = true.
Proof.
  unfold resolveSRV. destruct (dns_resolveSrv o dnsName) as [err|result]; [reflexivity|].
  destruct (0 <? length result)%nat; [|reflexivity]. simpl.
  apply promise_all_settled. intros p Hp.
  rewrite map_map in Hp. apply in_map_iff in Hp as (entry & <- & _).
  apply resolveIP_settled.
Qed.

(** *** [generateContext] *)

#[local] Arguments store : simpl never.

Lemma store_set m k s : store m (k, s) = JSMap.set m k (settled_value s).
Proof. now destruct s. Qed.

Lemma hashSettled_lookups o (l : cache) :
  exists result,
    hashSettled (map (fun c => (fst c, snd (snd c)))
                   (map (fun kv => (fst kv, resolveSRV o (fst kv))) l)) = Some result
    /\ map fst result = JSMap.keys l
    /\ forall k s, In (k, s) result -> settled_value s = stored (snd (resolveSRV o k)).
Proof.
  induction l as [|[k v] l (result & Hr & Hk & Hs)]; simpl.
  - exists []. repeat split. intros ? ? [].
  - rewrite Hr. pose proof (resolveSRV_settled o k) as Hset.
    destruct (snd (resolveSRV o k)) as [|v'|e] eqn:E; [discriminate| |].
    + exists ((k, StFulfilled v') :: result). simpl. repeat split; [now f_equal|].
      intros k0 s [Heq|Hin]; [|now apply Hs]. inversion Heq; subst. now rewrite E.
    + exists ((k, StRejected e) :: result). simpl. repeat split; [now f_equal|].
      intros k0 s [Heq|Hin]; [|now apply Hs]. inversion Heq; subst. now rewrite E.
Qed.

Lemma foldl_store_keys result : forall m,
  (forall k, In k (map fst result) -> In k (JSMap.keys m)) ->
  JSMap.keys (foldl store m result) = JSMap.keys m.
Proof.
  induction result as [|[k s] result IH]; simpl; intros m H; [reflexivity|].
  rewrite store_set. rewrite IH.
  - apply JSMap_keys_set_in. apply H. now left.
  - intros k' Hk'. rewrite JSMap_keys_set_in; apply H; auto.
Qed.

Lemma foldl_store_other result : forall m k,
  ~ In k (map fst result) ->
  JSMap.get (foldl store m result) k = JSMap.get m k.
Proof.
  induction result as [|[k0 s] result IH]; simpl; intros m k H; [reflexivity|].
  rewrite store_set, IH by (intros Hin; apply H; now right).
  apply JSMap_get_set_ne. intros ->. apply H. now left.
Qed.

Lemma foldl_store_get (f : string -> value) result : forall m k,
  (forall k s, In (k, s) result -> settled_value s = f k) ->
  In k (map fst result) ->
  JSMap.get (foldl store m result) k = Some (f k).
Proof.
  induction result as [|[k0 s] result IH]; simpl; intros m k Hf Hin; [contradiction|].
  rewrite store_set.
  destruct (in_dec string_dec k (map fst result)) as [Hr|Hr].
  - apply IH; auto.
  - destruct Hin as [->|Hin]; [|contradiction].
    rewrite foldl_store_other by exact Hr.
    rewrite JSMap_get_set_eq. f_equal. apply Hf. now left.
Qed.

Lemma generateContext_promise o services :
  promise_of (generateContext o services) = Fulfilled tt.
Proof.
  unfold generateContext.
  destruct (hashSettled_lookups o services) as (result & -> & _). reflexivity.
Qed.

Lemma generateContext_events o services :
  events_of (generateContext o services)
  = concat (map (fun kv => fst (resolveSRV o (fst kv))) services).
Proof.
  unfold generateContext.
  destruct (hashSettled_lookups o services) as (result & -> & _).
  unfold events_of. simpl. now rewrite map_map.
Qed.

Lemma generateContext_keys o services :
  JSMap.keys (state_of (generateContext o services)) = JSMap.keys services.
Proof.
  unfold generateContext.
  destruct (hashSettled_lookups o services) as (result & -> & Hk & _).
  unfold state_of. simpl. apply foldl_store_keys. now rewrite Hk.
Qed.

Lemma generateContext_get o services k :
  In k (JSMap.keys services) ->
  cache_get (state_of (generateContext o services)) k
  = stored (snd (resolveSRV o k)).
Proof.
  intros Hin. unfold generateContext.
  destruct (hashSettled_lookups o services) as (result & -> & Hk & Hs).
  unfold state_of, cache_get. simpl.
  rewrite (foldl_store_get (fun k => stored (snd (resolveSRV o k)))); auto.
  now rewrite Hk.
Qed.

(** *** Events of the lookups *)

Lemma resolveIP_events o entry e :
  In e (fst (resolveIP o entry)) ->
  e = EvResolve (srv_name entry)
  /\ isV4Format (srv_name entry) || isV6Format (srv_name entry) = false.
Proof.
  unfold resolveIP.
  destruct (isV4Format _ || isV6Format _); simpl; [contradiction|].
  intros [<-|[]]. now split.
Qed.

Lemma resolveSRV_events o dnsName e :
  In e (fst (resolveSRV o dnsName)) ->
  e = EvResolveSrv dnsName
  \/ exists hostName,
       e = EvResolve hostName /\ isV4Format hostName || isV6Format hostName = false.
Proof.
  unfold resolveSRV. destruct (dns_resolveSrv o dnsName) as [err|result].
  - simpl. intros [<-|[]]. now left.
  - destruct (0 <? length result)%nat; simpl.
    + intros [<-|Hin]; [now left|right].
      apply in_concat in Hin as (evs & Hevs & Hin).
      rewrite map_map in Hevs. apply in_map_iff in Hevs as (entry & <- & _).
      apply resolveIP_events in Hin as [-> Hlit]. eauto.
    + intros [<-|[]]. now left.
Qed.

Lemma resolveSRV_issues o dnsName :
  In (EvResolveSrv dnsName) (fst (resolveSRV o dnsName)).
Proof.
  unfold resolveSRV. destruct (dns_resolveSrv o dnsName) as [err|result].
  - now left.
  - destruct (0 <? length result)%nat; now left.
Qed.

Lemma generateContext_events_in o services e :
  In e (events_of (generateContext o services)) ->
  exists k, In k (JSMap.keys services) /\ In e (fst (resolveSRV o k)).
Proof.
  rewrite generateContext_events. intros Hin.
  apply in_concat in Hin as (evs & Hevs & Hin).
  apply in_map_iff in Hevs as ([k v] & <- & Hkv).
  exists k. split; [|exact Hin]. apply in_map_iff. now exists (k, v).
Qed.

Lemma generateContext_issues o services k :
  In k (JSMap.keys services) ->
  In (EvResolveSrv k) (events_of (generateContext o services)).
Proof.
  intros Hin. rewrite generateContext_events.
  apply in_map_iff in Hin as ([k' v] & <- & Hkv).
  apply in_concat. exists (fst (resolveSRV o k')). split.
  - apply in_map_iff. now exists (k', v).
  - apply resolveSRV_issues.
Qed.

Lemma generateContext_events_dns o services e :
  In e (events_of (generateContext o services)) -> is_dns e.
Proof.
  intros Hin. apply generateContext_events_in in Hin as (k & _ & Hin).
  apply resolveSRV_events in Hin as [->|(h & -> & _)]; exact I.
Qed.

(** *** [Promise.all] and the sort *)

Lemma promise_all_rejected {A} (ps : list (promise A)) e :
  In (Rejected e) ps -> exists e', promise_all ps = Rejected e'.
Proof.
  induction ps as [|p ps IH]; simpl; intros Hin; [contradiction|].
  destruct Hin as [->|Hin].
  - eauto.
  - destruct (IH Hin) as (e' & ->). destruct p; eauto.
Qed.

Lemma promise_all_fulfilled {A} (ps : list (promise A)) l :
  promise_all ps = Fulfilled l -> ps = map Fulfilled l.
Proof.
  revert l. induction ps as [|p ps IH]; simpl; intros l H.
  - now inversion H.
  - destruct p as [|a|e], (promise_all ps) as [|l'|e'] eqn:E; try discriminate.
    inversion H; subst. simpl. f_equal. now apply IH.
Qed.

Lemma sort_insert_perm {A} (f : A -> A -> Z) x l :
  Permutation (sort_insert f x l) (x :: l).
Proof.
  induction l as [|y l IH]; simpl; [reflexivity|].
  destruct (0 <? f x y)%Z; [|reflexivity].
  rewrite IH. apply perm_swap.
Qed.

Lemma array_sort_perm {A} (f : A -> A -> Z) l :
  Permutation (array_sort f l) l.
Proof.
  induction l as [|x l IH]; simpl; [reflexivity|].
  rewrite sort_insert_perm. now constructor.
Qed.

Lemma array_sort_length {A} (f : A -> A -> Z) l :
  length (array_sort f l) = length l.
Proof. apply Permutation_length, array_sort_perm. Qed.

Lemma resolveIP_fulfilled o entry endpoint :
  snd (resolveIP o entry) = Fulfilled endpoint ->
  name endpoint = srv_name entry /\ port endpoint = srv_port entry
  /\ priority endpoint = srv_priority entry /\ weight endpoint = srv_weight entry.
Proof.
  unfold resolveIP. destruct (isV4Format _ || isV6Format _); simpl.
  - intros H. inversion H. now subst.
  - destruct (dns_resolve o _); [discriminate|]. intros H. inversion H. now subst.
Qed.

Lemma resolveIPs_names o entries endpoints :
  map snd (map (resolveIP o) entries) = map Fulfilled endpoints ->
  map name endpoints = map srv_name entries.
Proof.
  revert endpoints. induction entries as [|entry entries IH]; intros [|x xs] H;
    simpl in *; try discriminate; [reflexivity|].
  inversion H as [[Hx Hxs]]. f_equal; [|now apply IH].
  now apply resolveIP_fulfilled in Hx.
Qed.

(** [resolveSRV] fulfils only with one endpoint per target of the answer. *)
Lemma resolveSRV_fulfilled o dnsName result endpoints :
  dns_resolveSrv o dnsName = CbOk result ->
  snd (resolveSRV o dnsName) = Fulfilled endpoints ->
  map name endpoints
  = map srv_name
      (array_sort (fun a b => localeCompare (srv_name a) (srv_name b)) result).
Proof.
  unfold resolveSRV. intros ->.
  destruct (0 <? length result)%nat eqn:Hlen.
  - cbv zeta. cbn [snd]. intros H. apply promise_all_fulfilled in H.
    now apply resolveIPs_names in H.
  - destruct result; [|discriminate]. simpl. intros H. now inversion H.
Qed.

(** One target without an address rejects the whole key. *)
Lemma resolveSRV_rejected o dnsName result target err :
  dns_resolveSrv o dnsName = CbOk result ->
  In target result ->
  isV4Format (srv_name target) || isV6Format (srv_name target) = false ->
  dns_resolve o (srv_name target) = CbErr err ->
  exists e, snd (resolveSRV o dnsName) = Rejected e.
Proof.
  intros Hsrv Hin Hlit Herr. unfold resolveSRV. rewrite Hsrv.
  assert (Hlen : (0 <? length result)%nat = true)
    by (destruct result; [contradiction | reflexivity]).
  rewrite Hlen. cbv zeta. cbn [snd].
  apply (promise_all_rejected _ err).
  rewrite map_map. apply in_map_iff. exists target. split.
  - unfold resolveIP. rewrite Hlit, Herr. reflexivity.
  - eapply Permutation_in; [symmetry; apply array_sort_perm | exact Hin].
Qed.

(** *** One cycle *)

Lemma regenerateConfiguration_eq o w :
  regenerateConfiguration o w =
  match changesDetected (cycleDiff o w) with
  | CbErr err => (lookups o w, set_cache w (resolved o w), Rejected err)
  | CbOk true =>
      match fs_writeFileSync o with
      | Some err =>
          (lookups o w ++ [EvWriteFile (newConfig o w)],
           set_cache w (resolved o w), Rejected err)
      | None =>
          if haproxyRunning w then
            (lookups o w ++ [EvWriteFile (newConfig o w); EvReload],
             set_file (set_cache w (resolved o w)) (newConfig o w),
             match haproxy_reload o with
             | Some err => Rejected err
             | None => Fulfilled tt
             end)
          else
            (lookups o w ++ [EvWriteFile (newConfig o w)],
             set_file (set_cache w (resolved o w)) (newConfig o w),
             Fulfilled tt)
      end
  | CbOk false => (lookups o w, set_cache w (resolved o w), Pending)
  end.
Proof.
  unfold regenerateConfiguration, cycleDiff, newConfig, resolved, lookups,
    originalConfig.
  pose proof (generateContext_promise o (dnsCache_srv w)) as Hp.
  destruct (generateContext o (dnsCache_srv w)) as [[events services] p].
  unfold promise_of, state_of, events_of in *. simpl in *. subst p.
  reflexivity.
Qed.



(** An empty change list makes the test throw: the cycle rejects before it
    writes anything. *)
Lemma empty_change_list_rejects o w :
  cycleDiff o w = [] ->
  exists err,
    regenerateConfiguration o w
    = (lookups o w, set_cache w (resolved o w), Rejected err).
Proof.
  intros Hd. rewrite regenerateConfiguration_eq, Hd. simpl. eauto.
Qed.

Lemma not_in_lookups o w e : ~ is_dns e -> ~ In e (lookups o w).
Proof.
  intros Hn Hin. apply Hn. eapply generateContext_events_dns. exact Hin.
Qed.

Lemma regenerateConfiguration_cache o w :
  dnsCache_srv (state_of (regenerateConfiguration o w)) = resolved o w.
Proof.
  rewrite regenerateConfiguration_eq.
  destruct (changesDetected (cycleDiff o w)) as [err|[|]]; try reflexivity.
  destruct (fs_writeFileSync o); [reflexivity|].
  now destruct (haproxyRunning w).
Qed.

Lemma andThen_cache r f :
  (forall w, dnsCache_srv (state_of (f w)) = dnsCache_srv w) ->
  dnsCache_srv (state_of (andThen r f)) = dnsCache_srv (state_of r).
Proof.
  intros Hf. destruct r as [[events w] [|[]|err]]; try reflexivity.
  unfold andThen. specialize (Hf w). destruct (f w) as [[events' w'] p].
  exact Hf.
Qed.

Lemma catchFailure_state r : state_of (catchFailure r) = state_of r.
Proof. now destruct r as [[events w] [|[]|err]]. Qed.

Lemma refreshCycle_cache o w :
  dnsCache_srv (state_of (refreshCycle o w)) = resolved o w.
Proof.
  unfold refreshCycle. rewrite catchFailure_state, andThen_cache.
  - apply regenerateConfiguration_cache.
  - reflexivity.
Qed.

Lemma main_cache o w :
  dnsCache_srv (state_of (main o w)) = resolved o (checkTemplate w).
Proof.
  assert (Hverify : forall w', dnsCache_srv (state_of (verifyConfiguration o w'))
                               = dnsCache_srv w').
  { intros w'. unfold verifyConfiguration. now destruct (configurationFile w'). }
  assert (Hstart : forall w', dnsCache_srv (state_of (startHAProxy o w'))
                              = dnsCache_srv w').
  { intros w'. unfold startHAProxy. now destruct (haproxy_start o). }
  unfold main. rewrite catchFailure_state.
  rewrite !andThen_cache by (assumption || reflexivity).
  apply regenerateConfiguration_cache.
Qed.

Lemma resolved_keys o w :
  JSMap.keys (resolved o w) = JSMap.keys (dnsCache_srv w).
Proof. apply generateContext_keys. Qed.

Lemma refreshCycles_keys os : forall w,
  JSMap.keys (dnsCache_srv (snd (refreshCycles os w)))
  = JSMap.keys (dnsCache_srv w).
Proof.
  induction os as [|o os IH]; intros w; simpl; [reflexivity|].
  pose proof (refreshCycle_cache o w) as Hc.
  destruct (refreshCycle o w) as [[events w'] p]. unfold state_of in Hc. simpl in Hc.
  destruct (exited events); simpl.
  - rewrite Hc. apply resolved_keys.
  - specialize (IH w'). destruct (refreshCycles os w') as [events' w''].
    simpl in *. rewrite IH, Hc. apply resolved_keys.
Qed.

(** ** The claims *)

Lemma render_with_without (m : cache) k t :
  cache_get m k = Undefined ->
  render_with t m = render_with (without k t) m.
Proof.
  intros Hk. unfold render_with.
  induction t as [|p t IH]; simpl; [reflexivity|].
  destruct p as [text|k' fn]; simpl.
  - now rewrite IH.
  - destruct (String.eqb k' k) eqn:E; simpl.
    + apply String.eqb_eq in E. subst k'.
      unfold gatherDataHelper. rewrite Hk. simpl. exact IH.
    + now rewrite IH.
Qed.

(** C1, for the two kinds of value the helper tells apart.  A [dns-srv]
    block whose key holds [undefined] in the
    cache (or is not in the cache) is ignored: the helper returns [undefined]
    without calling the block, and the rendered text is that of the template
    without the blocks of that key.  A key that holds an array, the empty
    array included, has its block called once with that array as context. *)
Theorem C1_unresolved_block_is_ignored (m : cache) (k : string) :
  (cache_get m k = Undefined ->
   (forall fn, gatherDataHelper m k fn = None)
   /\ render m = render_with (without k template) m)
  /\ (forall entries fn,
        cache_get m k = Arr entries ->
        gatherDataHelper m k fn = Some (fn (Arr entries))).
Proof.
  split.
  - intros Hk. split.
    + intros fn. unfold gatherDataHelper. now rewrite Hk.
    + now apply render_with_without.
  - intros entries fn Hk. unfold gatherDataHelper. now rewrite Hk.
Qed.


(** C4.  For a key whose SRV lookup answers with targets: if the address
    lookup of one of them fails, the key holds [undefined] after the cycle;
    and whenever the key holds a list after the cycle, the list has one
    endpoint for every target of the answer, in sorted order. *)
Theorem C4_all_targets_or_unresolved o (services : cache) key result :
  In key (JSMap.keys services) ->
  dns_resolveSrv o key = CbOk result ->
  (forall target err,
      In target result ->
      isV4Format (srv_name target) || isV6Format (srv_name target) = false ->
      dns_resolve o (srv_name target) = CbErr err ->
      cache_get (state_of (generateContext o services)) key = Undefined)
  /\ (forall entries,
        cache_get (state_of (generateContext o services)) key = Arr entries ->
        map name entries
        = map srv_name
            (array_sort (fun a b => localeCompare (srv_name a) (srv_name b)) result)
        /\ length entries = length result).
Proof.
  intros Hin Hsrv. rewrite generateContext_get by exact Hin. split.
  - intros target err Ht Hlit Herr.
    destruct (resolveSRV_rejected o key result target err Hsrv Ht Hlit Herr)
      as (e & ->).
    reflexivity.
  - intros entries Hstored.
    destruct (snd (resolveSRV o key)) as [|endpoints|e] eqn:E; try discriminate.
    inversion Hstored; subst endpoints.
    pose proof (resolveSRV_fulfilled o key result entries Hsrv E) as Hnames.
    split; [exact Hnames|].
    rewrite <- (length_map name), Hnames, length_map. apply array_sort_length.
Qed.

(** C5.  A target whose name has the format of an IPv4 or IPv6 address is
    resolved without any query: [resolveIP] fulfils at once with [ip] equal
    to the name, and no cycle sends an address query for such a name. *)
Theorem C5_literal_address_is_not_looked_up o entry :
  isV4Format (srv_name entry) || isV6Format (srv_name entry) = true ->
  resolveIP o entry = ([], Fulfilled (with_ip entry (Some (srv_name entry))))
  /\ ip (with_ip entry (Some (srv_name entry))) = Some (srv_name entry)
  /\ name (with_ip entry (Some (srv_name entry))) = srv_name entry
  /\ forall services : cache,
       ~ In (EvResolve (srv_name entry)) (events_of (generateContext o services)).
Proof.
  intros Hlit. repeat split.
  - unfold resolveIP. now rewrite Hlit.
  - intros services Hin.
    apply generateContext_events_in in Hin as (k & _ & Hin).
    apply resolveSRV_events in Hin as [Heq|(h & Heq & Hh)]; [discriminate|].
    inversion Heq; subst h. congruence.
Qed.




(** ** The template scan *)

Lemma JSMap_keys_set_notin (m : cache) k v :
  ~ In k (JSMap.keys m) -> JSMap.keys (JSMap.set m k v) = JSMap.keys m ++ [k].
Proof.
  induction m as [|[k0 v0] m IH]; simpl; intros Hn; [reflexivity|].
  destruct (String.eqb k0 k) eqn:E.
  - apply String.eqb_eq in E. exfalso. apply Hn. now left.
  - simpl. f_equal. apply IH. intros Hin. apply Hn. now right.
Qed.

Lemma JSMap_set_same (m : cache) k v :
  JSMap.get m k = Some v -> JSMap.set m k v = m.
Proof.
  induction m as [|[k0 v0] m IH]; simpl; [discriminate|].
  destruct (String.eqb k0 k) eqn:E.
  - intros H. inversion H. reflexivity.
  - intros H. f_equal. now apply IH.
Qed.

Lemma JSMap_keys_set_nodup (m : cache) k v :
  NoDup (JSMap.keys m) -> NoDup (JSMap.keys (JSMap.set m k v)).
Proof.
  intros Hnd. destruct (in_dec string_dec k (JSMap.keys m)) as [Hin|Hn].
  - now rewrite JSMap_keys_set_in.
  - rewrite JSMap_keys_set_notin by exact Hn.
    apply NoDup_app; split; [exact Hnd|]. split.
    + intros x Hx Hk. apply list_elem_of_In in Hx. apply list_elem_of_In in Hk.
      destruct Hk as [<-|[]]. contradiction.
    + apply NoDup_cons; split; [intros H; inversion H | constructor].
Qed.

Lemma JSMap_keys_set_incl (m : cache) k v x :
  In x (JSMap.keys (JSMap.set m k v)) <-> In x (JSMap.keys m) \/ x = k.
Proof.
  destruct (in_dec string_dec k (JSMap.keys m)) as [Hin|Hn].
  - rewrite JSMap_keys_set_in by exact Hin. split; [now left|].
    intros [H| ->]; assumption.
  - rewrite JSMap_keys_set_notin by exact Hn. rewrite in_app_iff. simpl.
    split; intros [H|H]; auto; destruct H as [<-|[]]; auto.
Qed.

Lemma JSMap_set_values (m : cache) k v x y :
  In (x, y) (JSMap.set m k v) -> In (x, y) m \/ y = v.
Proof.
  induction m as [|[k0 v0] m IH]; simpl.
  - intros [H|[]]. inversion H. now right.
  - destruct (String.eqb k0 k); simpl.
    + intros [H|H]; [inversion H; now right | left; now right].
    + intros [H|H]; [left; now left|].
      destruct (IH H) as [H'|H']; [left; now right | now right].
Qed.

Lemma scan_snoc t p services :
  scan (t ++ [p]) services
  = match p with
    | TText _ => scan t services
    | TDnsSrv dnsName _ => JSMap.set (scan t services) dnsName Undefined
    end.
Proof. unfold scan. rewrite foldl_app. now destruct p. Qed.

Lemma templateKeys_snoc t p :
  templateKeys (t ++ [p])
  = templateKeys t ++ match p with TDnsSrv k _ => [k] | TText _ => [] end.
Proof.
  unfold templateKeys. rewrite flat_map_app. simpl. now rewrite app_nil_r.
Qed.

Lemma scan_get_key t : forall services k,
  In k (templateKeys t) -> JSMap.get (scan t services) k = Some Undefined.
Proof.
  induction t as [|p t IH] using rev_ind; intros services k Hin; [contradiction|].
  rewrite templateKeys_snoc in Hin. rewrite scan_snoc.
  apply in_app_or in Hin. destruct p as [text|k' fn].
  - destruct Hin as [Hin|[]]. now apply IH.
  - destruct (string_dec k' k) as [->|Hne].
    + apply JSMap_get_set_eq.
    + rewrite JSMap_get_set_ne by exact Hne.
      destruct Hin as [Hin|[Heq|[]]]; [now apply IH | contradiction].
Qed.

Lemma scan_get_other t : forall services k,
  ~ In k (templateKeys t) -> JSMap.get (scan t services) k = JSMap.get services k.
Proof.
  induction t as [|p t IH] using rev_ind; intros services k Hn; [reflexivity|].
  rewrite templateKeys_snoc in Hn. rewrite scan_snoc.
  assert (Ht : ~ In k (templateKeys t))
    by (intros H; apply Hn, in_or_app; now left).
  destruct p as [text|k' fn]; [now apply IH|].
  rewrite JSMap_get_set_ne; [now apply IH|].
  intros ->. apply Hn, in_or_app. right. now left.
Qed.

Lemma scan_keys t : forall services k,
  In k (JSMap.keys (scan t services))
  <-> In k (JSMap.keys services) \/ In k (templateKeys t).
Proof.
  induction t as [|p t IH] using rev_ind; intros services k.
  - simpl. split; [now left | now intros [H|[]]].
  - rewrite templateKeys_snoc, scan_snoc, in_app_iff.
    destruct p as [text|k' fn].
    + rewrite IH. simpl. split; intros [H|H]; auto.
      destruct H as [H|[]]. auto.
    + rewrite JSMap_keys_set_incl, IH. simpl.
      split.
      * intros [[H|H]| ->]; auto.
      * intros [H|[H|[<-|[]]]]; auto.
Qed.

Lemma scan_nodup t : forall services,
  NoDup (JSMap.keys services) -> NoDup (JSMap.keys (scan t services)).
Proof.
  induction t as [|p t IH] using rev_ind; intros services Hnd; [exact Hnd|].
  rewrite scan_snoc. destruct p as [text|k' fn]; [now apply IH|].
  apply JSMap_keys_set_nodup. now apply IH.
Qed.

Lemma scan_values t : forall services k v,
  In (k, v) (scan t services) -> In (k, v) services \/ v = Undefined.
Proof.
  induction t as [|p t IH] using rev_ind; intros services k v Hin; [now left|].
  rewrite scan_snoc in Hin. destruct p as [text|k' fn]; [now apply IH|].
  apply JSMap_set_values in Hin as [Hin|Hv]; [now apply IH | now right].
Qed.

Lemma scan_fixed t : forall services,
  (forall k, In k (templateKeys t) -> JSMap.get services k = Some Undefined) ->
  scan t services = services.
Proof.
  induction t as [|p t IH] using rev_ind; intros services H; [reflexivity|].
  rewrite scan_snoc.
  assert (Ht : scan t services = services).
  { apply IH. intros k Hk. apply H. rewrite templateKeys_snoc.
    apply in_or_app. now left. }
  destruct p as [text|k' fn]; [exact Ht|].
  rewrite Ht. apply JSMap_set_same. apply H. rewrite templateKeys_snoc.
  apply in_or_app. right. now left.
Qed.

(** X1.  The dry run leaves every key of a [dns-srv] block of the template in
    the cache with the value [undefined], whatever the key held before; it
    keeps every key the cache had, and does not touch the value of a key the
    template does not name. *)
Theorem X1_dry_run_records_every_key (services : cache) :
  (forall k, In k (templateKeys template) ->
             JSMap.get (dryRun services) k = Some Undefined)
  /\ (forall k, ~ In k (templateKeys template) ->
                JSMap.get (dryRun services) k = JSMap.get services k)
  /\ (forall k, In k (JSMap.keys (dryRun services))
                <-> In k (JSMap.keys services) \/ In k (templateKeys template)).
Proof.
  change (dryRun services) with (scan template services).
  split; [|split].
  - intros k. apply scan_get_key.
  - intros k. apply scan_get_other.
  - intros k. apply scan_keys.
Qed.

(** X2.  Scanning the template again changes nothing: the dry run of a cache
    that a dry run produced is that cache. *)
Theorem X2_dry_run_is_idempotent (services : cache) :
  dryRun (dryRun services) = dryRun services
  /\ dnsCache_srv (checkTemplate (checkTemplate (mkWorld services None false)))
     = dnsCache_srv (checkTemplate (mkWorld services None false)).
Proof.
  assert (H : dryRun (dryRun services) = dryRun services).
  { change (scan template (scan template services) = scan template services).
    apply scan_fixed. intros k. apply scan_get_key. }
  split; [exact H|]. simpl. exact H.
Qed.

(** X3.  From the empty cache of a starting process, the dry run gives a
    cache whose keys are exactly the keys of the [dns-srv] blocks of the
    template, each once, and all with the value [undefined]. *)
Theorem X3_dry_run_of_empty_cache :
  NoDup (JSMap.keys (dryRun JSMap.empty))
  /\ (forall k, In k (JSMap.keys (dryRun JSMap.empty))
                <-> In k (templateKeys template))
  /\ (forall k v, In (k, v) (dryRun JSMap.empty) -> v = Undefined).
Proof.
  change (dryRun JSMap.empty) with (scan template (@JSMap.empty value)).
  split; [|split].
  - apply scan_nodup. constructor.
  - intros k. rewrite scan_keys. simpl. split; [now intros [[]|H] | now right].
  - intros k v Hin. apply scan_values in Hin as [[]|Hv]. exact Hv.
Qed.

(** ** The resolution of one key *)

Lemma resolveIP_eq o entry :
  resolveIP o entry
  = (if literal (srv_name entry) then [] else [EvResolve (srv_name entry)],
     if literal (srv_name entry) then
       Fulfilled (with_ip entry (Some (srv_name entry)))
     else
       match dns_resolve o (srv_name entry) with
       | CbErr err => Rejected err
       | CbOk address => Fulfilled (with_ip entry (head address))
       end).
Proof. unfold resolveIP, literal. now destruct (isV4Format _ || isV6Format _). Qed.

Lemma resolveIP_fulfilled_eq o entry endpoint :
  snd (resolveIP o entry) = Fulfilled endpoint ->
  endpoint = with_ip entry (address_of o (srv_name entry)).
Proof.
  rewrite resolveIP_eq. unfold address_of. simpl.
  destruct (literal (srv_name entry)).
  - intros H. now inversion H.
  - destruct (dns_resolve o (srv_name entry)); [discriminate|].
    intros H. now inversion H.
Qed.

Lemma resolveIPs_fulfilled_eq o entries : forall endpoints,
  map snd (map (resolveIP o) entries) = map Fulfilled endpoints ->
  endpoints = map (fun r => with_ip r (address_of o (srv_name r))) entries.
Proof.
  induction entries as [|entry entries IH]; intros [|x xs] H;
    simpl in *; try discriminate; [reflexivity|].
  inversion H as [[Hx Hxs]]. f_equal; [|now apply IH].
  now apply resolveIP_fulfilled_eq.
Qed.

Lemma promise_all_all_fulfilled {A} (l : list A) :
  promise_all (map Fulfilled l) = Fulfilled l.
Proof.
  induction l as [|a l IH]; simpl; [reflexivity|]. now rewrite IH.
Qed.

Lemma resolveIPs_all_resolve o entries :
  (forall target, In target entries ->
     literal (srv_name target) = true
     \/ exists address, dns_resolve o (srv_name target) = CbOk address) ->
  map snd (map (resolveIP o) entries)
  = map Fulfilled
      (map (fun r => with_ip r (address_of o (srv_name r))) entries).
Proof.
  induction entries as [|entry entries IH]; intros H; [reflexivity|].
  simpl. f_equal.
  - rewrite resolveIP_eq. unfold address_of. simpl.
    destruct (H entry (or_introl eq_refl)) as [Hl|(address & Ha)].
    + now rewrite Hl.
    + rewrite Ha. now destruct (literal (srv_name entry)).
  - apply IH. intros target Ht. apply H. now right.
Qed.

Lemma resolveIPs_queries o entries :
  concat (map fst (map (resolveIP o) entries))
  = map EvResolve
      (List.filter (fun n => negb (literal n)) (map srv_name entries)).
Proof.
  induction entries as [|entry entries IH]; [reflexivity|].
  simpl. rewrite IH, resolveIP_eq. simpl.
  now destruct (literal (srv_name entry)).
Qed.

(** X4.  The resolution of a key fulfils exactly when its SRV lookup answers
    and every target of the answer either is an address or has a successful
    address lookup. *)
Theorem X4_key_resolves_iff_all_targets_do o dnsName :
  (exists endpoints, snd (resolveSRV o dnsName) = Fulfilled endpoints)
  <-> exists result,
        dns_resolveSrv o dnsName = CbOk result
        /\ forall target, In target result ->
             literal (srv_name target) = true
             \/ exists address, dns_resolve o (srv_name target) = CbOk address.
Proof.
  split.
  - intros (endpoints & Hf).
    destruct (dns_resolveSrv o dnsName) as [err|result] eqn:Hsrv.
    + unfold resolveSRV in Hf. rewrite Hsrv in Hf. discriminate.
    + exists result. split; [reflexivity|]. intros target Ht.
      destruct (literal (srv_name target)) eqn:Hl; [now left|right].
      destruct (dns_resolve o (srv_name target)) as [err|address] eqn:Ha;
        [|now exists address].
      destruct (resolveSRV_rejected o dnsName result target err Hsrv Ht Hl Ha)
        as (e & He).
      congruence.
  - intros (result & Hsrv & Hall). unfold resolveSRV. rewrite Hsrv.
    destruct (0 <? length result)%nat; [|now exists []].
    cbv zeta. cbn [snd]. eexists.
    rewrite resolveIPs_all_resolve; [apply promise_all_all_fulfilled|].
    intros target Ht. apply Hall.
    eapply Permutation_in; [apply array_sort_perm | exact Ht].
Qed.

(** X5.  When the resolution of a key fulfils, the endpoints are the records
    of the SRV answer sorted by name, each with its own port, priority and
    weight, and with [ip] equal to the name when the name is an address and
    to the first address of the lookup otherwise. *)
Theorem X5_endpoints_are_the_sorted_answer o dnsName result endpoints :
  dns_resolveSrv o dnsName = CbOk result ->
  snd (resolveSRV o dnsName) = Fulfilled endpoints ->
  endpoints
  = map (fun r => with_ip r (address_of o (srv_name r)))
      (array_sort byName result).
Proof.
  unfold resolveSRV. intros ->.
  destruct (0 <? length result)%nat eqn:Hlen.
  - cbv zeta. cbn [snd]. intros H. apply promise_all_fulfilled in H.
    now apply resolveIPs_fulfilled_eq in H.
  - destruct result; [|discriminate]. simpl. intros H. now inversion H.
Qed.

(** X7.  The resolution of a key sends one SRV query and then, for an answer,
    one address query for every target whose name is not an address, in
    sorted order; a failing address lookup does not hold back the queries
    of the other targets, and a failed or empty SRV answer sends none. *)
Theorem X7_queries_of_a_key o dnsName :
  fst (resolveSRV o dnsName)
  = EvResolveSrv dnsName
    :: match dns_resolveSrv o dnsName with
       | CbErr _ => []
       | CbOk result =>
           map EvResolve
             (List.filter (fun n => negb (literal n))
                (map srv_name (array_sort byName result)))
       end.
Proof.
  unfold resolveSRV. destruct (dns_resolveSrv o dnsName) as [err|result];
    [reflexivity|].
  destruct (0 <? length result)%nat eqn:Hlen.
  - cbv zeta. cbn [fst]. f_equal. apply resolveIPs_queries.
  - now destruct result.
Qed.

Lemma resolveSRV_srv_queries o dnsName :
  List.filter is_srv_query (fst (resolveSRV o dnsName)) = [EvResolveSrv dnsName].
Proof.
  unfold resolveSRV. destruct (dns_resolveSrv o dnsName) as [err|result];
    [reflexivity|].
  destruct (0 <? length result)%nat; [|reflexivity].
  cbv zeta. cbn [fst]. rewrite resolveIPs_queries. simpl. f_equal.
  induction (List.filter (fun n => negb (literal n))
               (map srv_name
                  (array_sort (fun a b => localeCompare (srv_name a) (srv_name b))
                     result))) as [|n l IH]; [reflexivity | exact IH].
Qed.

(** X8.  The lookups of a cycle send exactly one SRV query for each key of
    the cache, in the order of the cache. *)
Theorem X8_one_srv_query_per_key o (services : cache) :
  List.filter is_srv_query (events_of (generateContext o services))
  = map EvResolveSrv (JSMap.keys services).
Proof.
  rewrite generateContext_events.
  induction services as [|[k v] services IH]; [reflexivity|].
  simpl. rewrite List.filter_app, IH. simpl.
  now rewrite resolveSRV_srv_queries.
Qed.

(** ** What a cycle renders *)

Lemma render_with_ext t (m1 m2 : cache) :
  (forall k, cache_get m1 k = cache_get m2 k) ->
  render_with t m1 = render_with t m2.
Proof.
  intros H. unfold render_with. f_equal. apply map_ext. intros [text|k fn].
  - reflexivity.
  - simpl. unfold gatherDataHelper. now rewrite H.
Qed.

Lemma render_with_static t (m : cache) :
  (forall k, In k (templateKeys t) -> cache_get m k = Undefined) ->
  render_with t m = staticText t.
Proof.
  unfold render_with, staticText.
  induction t as [|p t IH]; intros H; [reflexivity|].
  assert (Ht : forall k, In k (templateKeys t) -> cache_get m k = Undefined).
  { intros k Hk. apply H. unfold templateKeys. simpl. apply in_or_app. now right. }
  destruct p as [text|k fn]; simpl.
  - now rewrite IH.
  - unfold gatherDataHelper. rewrite H by (now left). simpl. now apply IH.
Qed.

Lemma generateContext_get_absent o (services : cache) k :
  ~ In k (JSMap.keys services) ->
  cache_get (state_of (generateContext o services)) k = Undefined.
Proof.
  intros Hn. unfold cache_get.
  destruct (JSMap.get (state_of (generateContext o services)) k) eqn:E;
    [|reflexivity].
  exfalso. apply Hn. rewrite <- (generateContext_keys o).
  apply JSMap_get_keys. congruence.
Qed.

Lemma resolveSRV_ext o1 o2 dnsName :
  dns_resolveSrv o1 dnsName = dns_resolveSrv o2 dnsName ->
  (forall hostName, dns_resolve o1 hostName = dns_resolve o2 hostName) ->
  resolveSRV o1 dnsName = resolveSRV o2 dnsName.
Proof.
  intros Hsrv Haddr. unfold resolveSRV. rewrite Hsrv.
  assert (Hip : forall entry, resolveIP o1 entry = resolveIP o2 entry)
    by (intros entry; unfold resolveIP; now rewrite Haddr).
  destruct (dns_resolveSrv o2 dnsName) as [err|result]; [reflexivity|].
  now rewrite (map_ext _ _ Hip).
Qed.

Lemma newConfig_ext o1 o2 w1 w2 :
  JSMap.keys (dnsCache_srv w1) = JSMap.keys (dnsCache_srv w2) ->
  (forall k, In k (JSMap.keys (dnsCache_srv w1)) ->
             dns_resolveSrv o1 k = dns_resolveSrv o2 k) ->
  (forall hostName, dns_resolve o1 hostName = dns_resolve o2 hostName) ->
  newConfig o1 w1 = newConfig o2 w2.
Proof.
  intros Hkeys Hsrv Haddr. unfold newConfig, render, resolved.
  apply render_with_ext. intros k.
  destruct (in_dec string_dec k (JSMap.keys (dnsCache_srv w1))) as [Hin|Hn].
  - rewrite !generateContext_get by (rewrite <- ?Hkeys; exact Hin).
    now rewrite (resolveSRV_ext o1 o2 k (Hsrv k Hin) Haddr).
  - rewrite !generateContext_get_absent by (rewrite <- ?Hkeys; exact Hn).
    reflexivity.
Qed.

(** X9.  The text a cycle renders depends only on the keys of the cache and
    on the DNS answers of that cycle: two cycles over caches with the same
    keys and with the same answers render the same text, whatever the keys
    held before. *)
Theorem X9_rendered_text_uses_only_fresh_data o1 o2 w1 w2 :
  JSMap.keys (dnsCache_srv w1) = JSMap.keys (dnsCache_srv w2) ->
  (forall k, In k (JSMap.keys (dnsCache_srv w1)) ->
             dns_resolveSrv o1 k = dns_resolveSrv o2 k) ->
  (forall hostName, dns_resolve o1 hostName = dns_resolve o2 hostName) ->
  newConfig o1 w1 = newConfig o2 w2.
Proof. apply newConfig_ext. Qed.

(** X10.  When the SRV lookup of every key of the cache fails, every key
    holds [undefined] after the lookups and the cycle renders the text of the
    template outside its [dns-srv] blocks only. *)
Theorem X10_all_lookups_fail_renders_static_text o w :
  (forall k, In k (JSMap.keys (dnsCache_srv w)) ->
             exists err, dns_resolveSrv o k = CbErr err) ->
  (forall k, cache_get (resolved o w) k = Undefined)
  /\ newConfig o w = staticText template.
Proof.
  intros Hfail.
  assert (Hu : forall k, cache_get (resolved o w) k = Undefined).
  { intros k. unfold resolved.
    destruct (in_dec string_dec k (JSMap.keys (dnsCache_srv w))) as [Hin|Hn].
    - rewrite generateContext_get by exact Hin.
      destruct (Hfail k Hin) as (err & Herr). unfold resolveSRV. now rewrite Herr.
    - now apply generateContext_get_absent. }
  split; [exact Hu|].
  unfold newConfig, render. apply render_with_static. intros k _. apply Hu.
Qed.

(** ** The outcomes of a cycle *)

Lemma regenerateConfiguration_events_kinds o w e :
  In e (events_of (regenerateConfiguration o w)) ->
  is_dns e \/ e = EvWriteFile (newConfig o w) \/ e = EvReload.
Proof.
  rewrite regenerateConfiguration_eq.
  assert (Hl : In e (lookups o w) -> is_dns e)
    by apply generateContext_events_dns.
  destruct (changesDetected (cycleDiff o w)) as [err|[|]]; simpl; auto.
  destruct (fs_writeFileSync o); [|destruct (haproxyRunning w)];
    unfold events_of; simpl; intros Hin; apply in_app_or in Hin;
    destruct Hin as [Hin|Hin]; auto; simpl in Hin; intuition auto.
Qed.





Lemma regenerateConfiguration_file o w :
  configurationFile (state_of (regenerateConfiguration o w)) = configurationFile w
  \/ configurationFile (state_of (regenerateConfiguration o w))
     = Some (newConfig o w).
Proof.
  rewrite regenerateConfiguration_eq.
  destruct (changesDetected (cycleDiff o w)) as [err|[|]]; try (now left).
  destruct (fs_writeFileSync o); [now left|].
  destruct (haproxyRunning w); now right.
Qed.

Lemma regenerateConfiguration_running o w :
  haproxyRunning (state_of (regenerateConfiguration o w)) = haproxyRunning w.
Proof.
  rewrite regenerateConfiguration_eq.
  destruct (changesDetected (cycleDiff o w)) as [err|[|]]; try reflexivity.
  destruct (fs_writeFileSync o); [reflexivity|].
  destruct (haproxyRunning w) eqn:E; unfold state_of; simpl; congruence.
Qed.


(** ** The main sequence and the scheduler *)

Lemma regenerateConfiguration_fulfilled_file o w :
  promise_of (regenerateConfiguration o w) = Fulfilled tt ->
  configurationFile (state_of (regenerateConfiguration o w))
  = Some (newConfig o w).
Proof.
  rewrite regenerateConfiguration_eq.
  destruct (changesDetected (cycleDiff o w)) as [err|[|]]; try discriminate.
  destruct (fs_writeFileSync o); [discriminate|].
  now destruct (haproxyRunning w).
Qed.

(** The main sequence by the outcome of its regeneration. *)
Lemma main_eq o w :
  main o w =
  match promise_of (regenerateConfiguration o (checkTemplate w)) with
  | Pending => regenerateConfiguration o (checkTemplate w)
  | Rejected err =>
      (events_of (regenerateConfiguration o (checkTemplate w)) ++ [EvExit (-1)],
       state_of (regenerateConfiguration o (checkTemplate w)), Rejected err)
  | Fulfilled _ =>
      match haproxy_verify o with
      | Some err =>
          (events_of (regenerateConfiguration o (checkTemplate w))
           ++ [EvVerify; EvExit (-1)],
           state_of (regenerateConfiguration o (checkTemplate w)), Rejected err)
      | None =>
          match haproxy_start o with
          | Some err =>
              (events_of (regenerateConfiguration o (checkTemplate w))
               ++ [EvVerify; EvStart; EvExit (-1)],
               state_of (regenerateConfiguration o (checkTemplate w)),
               Rejected err)
          | None =>
              (events_of (regenerateConfiguration o (checkTemplate w))
               ++ [EvVerify; EvStart; EvSetInterval; EvReportSuccess; EvLogStats],
               set_running (state_of (regenerateConfiguration o (checkTemplate w))),
               Fulfilled tt)
          end
      end
  end.
Proof.
  pose proof (regenerateConfiguration_fulfilled_file o (checkTemplate w)) as Hfile.
  unfold main.
  destruct (regenerateConfiguration o (checkTemplate w)) as [[events w1] [|[]|err]];
    unfold promise_of, state_of, events_of in *; simpl in *; try reflexivity.
  unfold verifyConfiguration. rewrite (Hfile eq_refl). simpl.
  destruct (haproxy_verify o) as [err|]; simpl.
  - now rewrite <- !app_assoc.
  - unfold startHAProxy. destruct (haproxy_start o) as [err|]; simpl;
      now rewrite <- !app_assoc.
Qed.

Lemma refreshCycle_eq o w :
  refreshCycle o w =
  match promise_of (regenerateConfiguration o w) with
  | Pending => regenerateConfiguration o w
  | Rejected err =>
      (events_of (regenerateConfiguration o w) ++ [EvExit (-1)],
       state_of (regenerateConfiguration o w), Rejected err)
  | Fulfilled _ =>
      (events_of (regenerateConfiguration o w) ++ [EvCycleCompleted],
       state_of (regenerateConfiguration o w), Fulfilled tt)
  end.
Proof.
  unfold refreshCycle.
  now destruct (regenerateConfiguration o w) as [[events w1] [|[]|err]].
Qed.

Lemma regenerateConfiguration_not_exited o w :
  exited (events_of (regenerateConfiguration o w)) = false.
Proof.
  apply not_true_is_false. intros Hex. unfold exited in Hex.
  apply existsb_exists in Hex as (e & Hin & He).
  apply regenerateConfiguration_events_kinds in Hin as [Hd|[->| ->]];
    try discriminate.
  now destruct e.
Qed.

Lemma exited_app l1 l2 : exited (l1 ++ l2) = exited l1 || exited l2.
Proof. unfold exited. apply existsb_app. Qed.

Lemma regenerateConfiguration_no_reload o w :
  haproxyRunning w = false ->
  ~ In EvReload (events_of (regenerateConfiguration o w)).
Proof.
  intros Hrun. rewrite regenerateConfiguration_eq, Hrun.
  assert (Hl : ~ In EvReload (lookups o w)) by now apply not_in_lookups.
  assert (Hw : ~ In EvReload (lookups o w ++ [EvWriteFile (newConfig o w)])).
  { intros Hin. apply in_app_or in Hin as [Hin|[Heq|[]]];
      [contradiction | discriminate]. }
  destruct (changesDetected (cycleDiff o w)) as [err|[|]]; try exact Hl.
  now destruct (fs_writeFileSync o).
Qed.

Lemma refreshCycle_running o w :
  haproxyRunning (state_of (refreshCycle o w)) = haproxyRunning w.
Proof.
  rewrite refreshCycle_eq.
  destruct (promise_of (regenerateConfiguration o w));
    apply regenerateConfiguration_running.
Qed.

Lemma refreshCycle_no_reload o w :
  haproxyRunning w = false -> ~ In EvReload (events_of (refreshCycle o w)).
Proof.
  intros Hrun. pose proof (regenerateConfiguration_no_reload o w Hrun) as Hn.
  rewrite refreshCycle_eq.
  destruct (promise_of (regenerateConfiguration o w)); [exact Hn| |];
    unfold events_of at 1; simpl; intros Hin;
    apply in_app_or in Hin as [Hin|[Heq|[]]]; try contradiction; discriminate.
Qed.

(** X17.  Refresh cycles never change the flag [haproxyRunning]: whatever
    the cycles do, it is after them what it was before. *)
Theorem X17_refresh_cycles_keep_the_running_flag os w :
  haproxyRunning (snd (refreshCycles os w)) = haproxyRunning w.
Proof.
  revert w. induction os as [|o os IH]; intros w; simpl; [reflexivity|].
  pose proof (refreshCycle_running o w) as Hr.
  destruct (refreshCycle o w) as [[events w'] p]. unfold state_of in Hr. simpl in Hr.
  destruct (exited events); simpl; [exact Hr|].
  specialize (IH w'). destruct (refreshCycles os w') as [events' w''].
  simpl in *. congruence.
Qed.

(** X18.  As long as HAProxy has not been started, nothing calls reload:
    neither the main sequence nor any sequence of refresh cycles. *)
Theorem X18_no_reload_before_start o os w :
  haproxyRunning w = false ->
  ~ In EvReload (events_of (main o w))
  /\ ~ In EvReload (fst (refreshCycles os w)).
Proof.
  intros Hrun. split.
  - assert (Hn : ~ In EvReload (events_of (regenerateConfiguration o (checkTemplate w))))
      by now apply regenerateConfiguration_no_reload.
    assert (Happ : forall l, ~ In EvReload l ->
              ~ In EvReload
                  (events_of (regenerateConfiguration o (checkTemplate w)) ++ l)).
    { intros l Hl Hin. apply in_app_or in Hin as [Hin|Hin]; contradiction. }
    rewrite main_eq.
    destruct (promise_of (regenerateConfiguration o (checkTemplate w)));
      [exact Hn| |].
    + destruct (haproxy_verify o); [|destruct (haproxy_start o)];
        unfold events_of at 1; simpl; apply Happ; simpl; intuition discriminate.
    + unfold events_of at 1; simpl; apply Happ; simpl; intuition discriminate.
  - revert w Hrun. induction os as [|o' os IH]; intros w Hrun; simpl; [auto|].
    pose proof (refreshCycle_running o' w) as Hr.
    pose proof (refreshCycle_no_reload o' w Hrun) as Hn.
    destruct (refreshCycle o' w) as [[events w'] p].
    unfold state_of, events_of in *. simpl in *.
    destruct (exited events); simpl; [exact Hn|].
    assert (Hrun' : haproxyRunning w' = false) by congruence.
    specialize (IH w' Hrun'). destruct (refreshCycles os w') as [events' w''].
    simpl in *. intros Hin. apply in_app_or in Hin as [Hin|Hin]; contradiction.
Qed.





(** X23.  The scheduler's cycle terminates the process exactly when the
    promise of the regeneration rejects; a fulfilled or a pending cycle never
    does. *)
Theorem X23_refresh_cycle_exits_iff_rejected o w :
  exited (events_of (refreshCycle o w)) = true
  <-> exists err, promise_of (regenerateConfiguration o w) = Rejected err.
Proof.
  pose proof (regenerateConfiguration_not_exited o w) as Hn.
  rewrite refreshCycle_eq.
  destruct (promise_of (regenerateConfiguration o w)) as [|[]|err].
  - rewrite Hn. split; [discriminate | intros (e & He); discriminate].
  - unfold events_of at 1. simpl. rewrite exited_app, Hn. simpl.
    split; [discriminate | intros (e & He); discriminate].
  - unfold events_of at 1. simpl. rewrite exited_app, Hn. simpl.
    split; [eauto | reflexivity].
Qed.

(** ** The object [promises] and the key [__proto__] *)

Lemma JSMap_set_keys {V} (m : JSMap.t V) k v x :
  In x (JSMap.keys (JSMap.set m k v)) <-> In x (JSMap.keys m) \/ x = k.
Proof.
  induction m as [|[k0 v0] m IH]; simpl.
  - split; [intros [H|[]]; now right | intros [[]|H]; now left].
  - destruct (String.eqb k0 k) eqn:E; simpl.
    + apply String.eqb_eq in E. subst k0.
      split; [intros H; now left | intros [H| ->]; [exact H | now left]].
    + rewrite IH. split; [intros [H|[H|H]] | intros [[H|H]|H]]; auto.
Qed.

Lemma JSMap_set_entries {V} (m : JSMap.t V) k v x y :
  In (x, y) (JSMap.set m k v) -> In (x, y) m \/ (x = k /\ y = v).
Proof.
  induction m as [|[k0 v0] m IH]; simpl.
  - intros [H|[]]. inversion H. now right.
  - destruct (String.eqb k0 k) eqn:E; simpl.
    + apply String.eqb_eq in E. subst k0.
      intros [H|H]; [inversion H; now right | left; now right].
    + intros [H|H]; [left; now left|].
      destruct (IH H) as [H'|H']; [left; now right | now right].
Qed.

Lemma object_assign_keys {A} (obj : js_object A) k v x :
  In x (JSMap.keys (own_properties (object_assign obj k v)))
  <-> In x (JSMap.keys (own_properties obj)) \/ (x = k /\ k <> proto_key).
Proof.
  unfold object_assign. destruct (String.eqb k proto_key) eqn:E; simpl.
  - apply String.eqb_eq in E. split; [now left | intros [H|[_ H]]; [exact H | contradiction]].
  - apply String.eqb_neq in E. rewrite JSMap_set_keys.
    split; [intros [H| ->]; auto | intros [H|[-> _]]; auto].
Qed.

Lemma object_assign_replaced {A} (obj : js_object A) k v :
  prototype_replaced (object_assign obj k v) = true
  <-> prototype_replaced obj = true \/ k = proto_key.
Proof.
  unfold object_assign. destruct (String.eqb k proto_key) eqn:E; simpl.
  - apply String.eqb_eq in E. split; [now right | reflexivity].
  - apply String.eqb_neq in E. split; [now left | intros [H|H]; [exact H | contradiction]].
Qed.

Lemma object_assign_entries {A} (obj : js_object A) k v x y :
  In (x, y) (own_properties (object_assign obj k v)) ->
  In (x, y) (own_properties obj) \/ (x = k /\ y = v).
Proof.
  unfold object_assign. destruct (String.eqb k proto_key); simpl.
  - now left.
  - apply JSMap_set_entries.
Qed.

Lemma promises_fold_keys o (services : cache) :
  forall obj x,
    In x (JSMap.keys (own_properties
            (foldl (fun obj kv =>
                      object_assign obj (fst kv) (snd (resolveSRV o (fst kv))))
               obj services)))
    <-> In x (JSMap.keys (own_properties obj))
        \/ (In x (JSMap.keys services) /\ x <> proto_key).
Proof.
  induction services as [|[k v] services IH]; intros obj x; simpl.
  - split; [now left | intros [H|[[] _]]; exact H].
  - rewrite IH, object_assign_keys. simpl. split.
    + intros [[H|[-> Hne]]|[H Hne]]; auto.
    + intros [H|[[<-|H] Hne]]; auto.
Qed.

Lemma promises_fold_replaced o (services : cache) :
  forall obj,
    prototype_replaced
      (foldl (fun obj kv =>
                object_assign obj (fst kv) (snd (resolveSRV o (fst kv))))
         obj services) = true
    <-> prototype_replaced obj = true \/ In proto_key (JSMap.keys services).
Proof.
  induction services as [|[k v] services IH]; intros obj; simpl.
  - split; [now left | intros [H|[]]; exact H].
  - rewrite IH, object_assign_replaced. simpl. split.
    + intros [[H| ->]|H]; auto.
    + intros [H|[<-|H]]; auto.
Qed.

Lemma promises_fold_entries o (services : cache) :
  forall obj,
    (forall k p, In (k, p) (own_properties obj) -> p = snd (resolveSRV o k)) ->
    forall k p,
      In (k, p) (own_properties
                   (foldl (fun obj kv =>
                             object_assign obj (fst kv)
                               (snd (resolveSRV o (fst kv))))
                      obj services)) ->
      p = snd (resolveSRV o k).
Proof.
  induction services as [|[k0 v0] services IH]; intros obj Hobj k p; simpl.
  - apply Hobj.
  - apply IH. intros k' p' Hin.
    apply object_assign_entries in Hin as [Hin|[-> ->]]; [now apply Hobj|].
    reflexivity.
Qed.

Lemma promises_of_keys o (services : cache) x :
  In x (JSMap.keys (own_properties (promises_of o services)))
  <-> In x (JSMap.keys services) /\ x <> proto_key.
Proof.
  unfold promises_of. rewrite promises_fold_keys. simpl.
  split; [intros [[]|H]; exact H | now right].
Qed.

Lemma promises_of_replaced o (services : cache) :
  prototype_replaced (promises_of o services) = true
  <-> In proto_key (JSMap.keys services).
Proof.
  unfold promises_of. rewrite promises_fold_replaced. simpl.
  split; [intros [H|H]; [discriminate | exact H] | now right].
Qed.

Lemma promises_of_entries o (services : cache) k p :
  In (k, p) (own_properties (promises_of o services)) ->
  p = snd (resolveSRV o k).
Proof.
  unfold promises_of. apply promises_fold_entries. intros ? ? [].
Qed.

Lemma hashSettled_entries o (ps : list (string * promise (list Endpoint))) :
  (forall k p, In (k, p) ps -> p = snd (resolveSRV o k)) ->
  exists result,
    hashSettled ps = Some result
    /\ map fst result = map fst ps
    /\ forall k s, In (k, s) result ->
         settled_value s = stored (snd (resolveSRV o k)).
Proof.
  induction ps as [|[k p] ps IH]; intros Hps; simpl.
  - exists []. repeat split. intros ? ? [].
  - destruct IH as (result & Hr & Hk & Hs).
    { intros k' p' Hin. apply Hps. now right. }
    rewrite Hr. pose proof (resolveSRV_settled o k) as Hset.
    rewrite (Hps k p (or_introl eq_refl)).
    destruct (snd (resolveSRV o k)) as [|v'|e] eqn:E; [discriminate| |].
    + exists ((k, StFulfilled v') :: result). simpl. repeat split; [now f_equal|].
      intros k0 s [Heq|Hin]; [|now apply Hs]. inversion Heq; subst. now rewrite E.
    + exists ((k, StRejected e) :: result). simpl. repeat split; [now f_equal|].
      intros k0 s [Heq|Hin]; [|now apply Hs]. inversion Heq; subst. now rewrite E.
Qed.

(** The join rejects exactly for a cache with the key [__proto__] under an
    adopting [hashSettled]; then nothing is stored. *)
Lemma generateContext_object_rejects o (services : cache) :
  hashSettled_adopts = true ->
  In proto_key (JSMap.keys services) ->
  exists err,
    generateContext_object o services
    = (srv_queries services, services, Rejected err).
Proof.
  intros Hv Hin. unfold generateContext_object.
  apply (promises_of_replaced o) in Hin. rewrite Hv, Hin. simpl. eauto.
Qed.

(** Otherwise it fulfils, having stored the outcome of every key but
    [__proto__]. *)
Lemma generateContext_object_fulfils o (services : cache) :
  hashSettled_adopts = false \/ ~ In proto_key (JSMap.keys services) ->
  exists result,
    generateContext_object o services
    = (srv_queries services ++ address_queries o services,
       foldl store services result, Fulfilled tt)
    /\ (forall x, In x (map fst result)
                  <-> In x (JSMap.keys services) /\ x <> proto_key)
    /\ forall k s, In (k, s) result ->
         settled_value s = stored (snd (resolveSRV o k)).
Proof.
  intros Hcase. unfold generateContext_object.
  assert (Hb : hashSettled_adopts && prototype_replaced (promises_of o services)
               = false).
  { destruct Hcase as [->|Hn]; [reflexivity|].
    destruct (prototype_replaced (promises_of o services)) eqn:E.
    - apply promises_of_replaced in E. contradiction.
    - apply andb_false_r. }
  rewrite Hb.
  destruct (hashSettled_entries o (own_properties (promises_of o services)))
    as (result & -> & Hk & Hs).
  { intros k p. apply promises_of_entries. }
  exists result. split; [reflexivity|]. split; [|exact Hs].
  intros x. rewrite Hk. apply promises_of_keys.
Qed.

Lemma generateContext_object_cases (services : cache) :
  (hashSettled_adopts = true /\ In proto_key (JSMap.keys services))
  \/ (hashSettled_adopts = false \/ ~ In proto_key (JSMap.keys services)).
Proof.
  destruct hashSettled_adopts; [|right; now left].
  destruct (in_dec string_dec proto_key (JSMap.keys services));
    [left; now split | right; now right].
Qed.

Lemma generateContext_object_keys o (services : cache) :
  JSMap.keys (state_of (generateContext_object o services))
  = JSMap.keys services.
Proof.
  destruct (generateContext_object_cases services) as [[Hv Hin]|Hcase].
  - destruct (generateContext_object_rejects o services Hv Hin) as (err & ->).
    reflexivity.
  - destruct (generateContext_object_fulfils o services Hcase)
      as (result & -> & Hk & _).
    unfold state_of. simpl. apply foldl_store_keys.
    intros k Hin. now apply Hk.
Qed.


Lemma generateContext_object_get o (services : cache) k :
  promise_of (generateContext_object o services) = Fulfilled tt ->
  In k (JSMap.keys services) -> k <> proto_key ->
  cache_get (state_of (generateContext_object o services)) k
  = stored (snd (resolveSRV o k)).
Proof.
  intros Hp Hin Hne.
  destruct (generateContext_object_cases services) as [[Hv Hproto]|Hcase].
  - destruct (generateContext_object_rejects o services Hv Hproto) as (err & Hr).
    rewrite Hr in Hp. discriminate.
  - destruct (generateContext_object_fulfils o services Hcase)
      as (result & -> & Hk & Hs).
    unfold state_of, cache_get. simpl.
    rewrite (foldl_store_get (fun k => stored (snd (resolveSRV o k)))); auto.
    now apply Hk.
Qed.

Lemma generateContext_object_untouched o (services : cache) k :
  k = proto_key \/ ~ In k (JSMap.keys services)
  \/ (exists err, promise_of (generateContext_object o services) = Rejected err) ->
  JSMap.get (state_of (generateContext_object o services)) k
  = JSMap.get services k.
Proof.
  intros Hk.
  destruct (generateContext_object_cases services) as [[Hv Hproto]|Hcase].
  - destruct (generateContext_object_rejects o services Hv Hproto) as (err & ->).
    reflexivity.
  - destruct (generateContext_object_fulfils o services Hcase)
      as (result & Hr & Hkeys & _).
    rewrite Hr in *. unfold state_of, promise_of in *. simpl in *.
    apply foldl_store_other. intros Hin. apply Hkeys in Hin as [Hin Hne].
    destruct Hk as [->|[Hn|(err & He)]];
      [now apply Hne | contradiction | discriminate].
Qed.



Lemma generateContext_object_invariant o (services : cache) :
  scanned_invariant services ->
  scanned_invariant (state_of (generateContext_object o services))
  /\ forall k, In k (JSMap.keys services) ->
       cache_get (state_of (generateContext_object o services)) k
       = stored (snd (resolveSRV o k))
       \/ cache_get (state_of (generateContext_object o services)) k = Undefined.
Proof.
  intros [Hproto Hall].
  destruct (generateContext_object_cases services) as [[Hv Hin]|Hcase].
  - destruct (generateContext_object_rejects o services Hv Hin) as (err & ->).
    unfold state_of. simpl. split; [now split|].
    intros k _. right. now apply Hall.
  - assert (Hp : promise_of (generateContext_object o services) = Fulfilled tt).
    { destruct (generateContext_object_fulfils o services Hcase) as (r & -> & _).
      reflexivity. }
    assert (Hu : cache_get (state_of (generateContext_object o services)) proto_key
                 = Undefined).
    { unfold cache_get in *.
      now rewrite generateContext_object_untouched by (now left). }
    split; [split; [exact Hu|]|].
    + intros Hv Hin. rewrite generateContext_object_keys in Hin.
      destruct Hcase as [Hf|Hn]; [congruence | contradiction].
    + intros k Hin. destruct (string_dec k proto_key) as [->|Hk];
        [now right | left]. now apply generateContext_object_get.
Qed.

(** For a cache without the key [__proto__], [generateContext] and
    [generateContext_object] agree: the same promise, the same keys and
    values, the same queries. *)
Lemma partition_permutation {A} (f : A -> bool) (l : list A) :
  Permutation (List.filter f l ++ List.filter (fun x => negb (f x)) l) l.
Proof.
  induction l as [|a l IH]; simpl; [reflexivity|].
  destruct (f a); simpl.
  - now constructor.
  - symmetry. apply Permutation_cons_app. now symmetry.
Qed.

Lemma srv_queries_filter o (services : cache) :
  List.filter is_srv_query
    (concat (map (fun kv => fst (resolveSRV o (fst kv))) services))
  = srv_queries services.
Proof.
  unfold srv_queries.
  induction services as [|[k v] services IH]; [reflexivity|].
  simpl. rewrite List.filter_app, IH. simpl.
  now rewrite resolveSRV_srv_queries.
Qed.

Lemma generateContext_object_agrees o (services : cache) :
  ~ In proto_key (JSMap.keys services) ->
  promise_of (generateContext_object o services)
  = promise_of (generateContext o services)
  /\ JSMap.keys (state_of (generateContext_object o services))
     = JSMap.keys (state_of (generateContext o services))
  /\ (forall k, cache_get (state_of (generateContext_object o services)) k
                = cache_get (state_of (generateContext o services)) k)
  /\ Permutation (events_of (generateContext_object o services))
       (events_of (generateContext o services)).
Proof.
  intros Hn.
  assert (Hcase : hashSettled_adopts = false
                  \/ ~ In proto_key (JSMap.keys services)) by now right.
  assert (Hp : promise_of (generateContext_object o services) = Fulfilled tt).
  { destruct (generateContext_object_fulfils o services Hcase) as (r & -> & _).
    reflexivity. }
  split; [now rewrite generateContext_promise|].
  split; [now rewrite generateContext_object_keys, generateContext_keys|].
  split.
  - intros k. destruct (in_dec string_dec k (JSMap.keys services)) as [Hin|Hk].
    + rewrite generateContext_get by exact Hin.
      apply generateContext_object_get; [exact Hp | exact Hin |].
      intros ->. contradiction.
    + rewrite generateContext_get_absent by exact Hk.
      unfold cache_get.
      rewrite generateContext_object_untouched by (right; now left).
      destruct (JSMap.get services k) eqn:E; [|reflexivity].
      exfalso. apply Hk, JSMap_get_keys. congruence.
  - destruct (generateContext_object_fulfils o services Hcase) as (r & -> & _).
    rewrite generateContext_events. unfold events_of at 1. simpl.
    unfold address_queries. rewrite <- (srv_queries_filter o).
    apply partition_permutation.
Qed.

Lemma JSMap_set_append {V} (m : JSMap.t V) k v :
  ~ In k (JSMap.keys m) -> JSMap.set m k v = m ++ [(k, v)].
Proof.
  induction m as [|[k0 v0] m IH]; simpl; intros Hn; [reflexivity|].
  destruct (String.eqb k0 k) eqn:E.
  - apply String.eqb_eq in E. exfalso. apply Hn. now left.
  - f_equal. apply IH. intros Hin. apply Hn. now right.
Qed.

Lemma promises_fold_distinct o (services : cache) :
  forall obj,
    NoDup (JSMap.keys services) ->
    ~ In proto_key (JSMap.keys services) ->
    (forall k, In k (JSMap.keys services) ->
               ~ In k (JSMap.keys (own_properties obj))) ->
    foldl (fun obj kv =>
             object_assign obj (fst kv) (snd (resolveSRV o (fst kv))))
      obj services
    = mkObject
        (own_properties obj
         ++ map (fun kv => (fst kv, snd (resolveSRV o (fst kv)))) services)
        (prototype_replaced obj).
Proof.
  induction services as [|[k v] services IH]; intros obj Hnd Hproto Hfresh; simpl.
  - rewrite app_nil_r. now destruct obj.
  - simpl in Hnd. apply NoDup_cons in Hnd as [Hk Hnd]. simpl in Hproto.
    rewrite list_elem_of_In in Hk.
    assert (Hne : String.eqb k proto_key = false).
    { apply String.eqb_neq. intros ->. apply Hproto. now left. }
    unfold object_assign at 2. simpl. rewrite Hne.
    rewrite JSMap_set_append by (apply Hfresh; now left).
    rewrite IH; simpl.
    + now rewrite <- app_assoc.
    + exact Hnd.
    + intros Hin. apply Hproto. now right.
    + intros k' Hk' Hin. unfold JSMap.keys in Hin. rewrite map_app in Hin.
      apply in_app_or in Hin as [Hin|[<-|[]]].
      * revert Hin. apply Hfresh. now right.
      * contradiction.
Qed.

(** For a cache of distinct keys without [__proto__], the object is the map
    of the keys, and [generateContext_object] is [generateContext] with the
    queries in the order of the program. *)
Lemma generateContext_object_eq o (services : cache) :
  NoDup (JSMap.keys services) ->
  ~ In proto_key (JSMap.keys services) ->
  generateContext_object o services
  = (srv_queries services ++ address_queries o services,
     state_of (generateContext o services),
     promise_of (generateContext o services)).
Proof.
  intros Hnd Hproto. unfold generateContext_object, generateContext, promises_of.
  rewrite promises_fold_distinct by (auto; intros k _ []). simpl.
  rewrite andb_false_r, map_map. simpl.
  now destruct (hashSettled _).
Qed.

Lemma regenerateConfiguration_object_agrees o w :
  NoDup (JSMap.keys (dnsCache_srv w)) ->
  ~ In proto_key (JSMap.keys (dnsCache_srv w)) ->
  state_of (regenerateConfiguration_object o w)
  = state_of (regenerateConfiguration o w)
  /\ promise_of (regenerateConfiguration_object o w)
     = promise_of (regenerateConfiguration o w)
  /\ Permutation (events_of (regenerateConfiguration_object o w))
       (events_of (regenerateConfiguration o w)).
Proof.
  intros Hnd Hproto.
  assert (Hperm : Permutation
                    (srv_queries (dnsCache_srv w)
                     ++ address_queries o (dnsCache_srv w))
                    (events_of (generateContext o (dnsCache_srv w)))).
  { rewrite generateContext_events. unfold address_queries.
    rewrite <- (srv_queries_filter o). apply partition_permutation. }
  unfold regenerateConfiguration_object, regenerateConfiguration.
  rewrite generateContext_object_eq by assumption.
  pose proof (generateContext_promise o (dnsCache_srv w)) as Hp.
  destruct (generateContext o (dnsCache_srv w)) as [[events c] p].
  unfold promise_of, state_of, events_of in *. simpl in *. subst p.
  destruct (changesDetected _) as [err|[|]]; simpl; auto.
  destruct (fs_writeFileSync o); simpl.
  - repeat split. now apply Permutation_app_tail.
  - destruct (haproxyRunning w); simpl; repeat split;
      now apply Permutation_app_tail.
Qed.

(** *** Cycles over the object *)

Lemma regenerateConfiguration_object_cache o w :
  dnsCache_srv (state_of (regenerateConfiguration_object o w))
  = state_of (generateContext_object o (dnsCache_srv w)).
Proof.
  unfold regenerateConfiguration_object.
  destruct (generateContext_object o (dnsCache_srv w)) as [[events c] [|[]|err]];
    try reflexivity.
  unfold state_of. simpl.
  destruct (changesDetected _) as [err|[|]]; try reflexivity.
  destruct (fs_writeFileSync o); [reflexivity|].
  now destruct (haproxyRunning w).
Qed.

Lemma refreshCycle_object_cache o w :
  dnsCache_srv (state_of (refreshCycle_object o w))
  = state_of (generateContext_object o (dnsCache_srv w)).
Proof.
  unfold refreshCycle_object. rewrite catchFailure_state, andThen_cache.
  - apply regenerateConfiguration_object_cache.
  - reflexivity.
Qed.

Lemma main_object_cache o w :
  dnsCache_srv (state_of (main_object o w))
  = state_of (generateContext_object o (dnsCache_srv (checkTemplate w))).
Proof.
  assert (Hverify : forall w', dnsCache_srv (state_of (verifyConfiguration o w'))
                               = dnsCache_srv w').
  { intros w'. unfold verifyConfiguration. now destruct (configurationFile w'). }
  assert (Hstart : forall w', dnsCache_srv (state_of (startHAProxy o w'))
                              = dnsCache_srv w').
  { intros w'. unfold startHAProxy. now destruct (haproxy_start o). }
  unfold main_object. rewrite catchFailure_state.
  rewrite !andThen_cache by (assumption || reflexivity).
  apply regenerateConfiguration_object_cache.
Qed.

Lemma refreshCycles_object_keys os : forall w,
  JSMap.keys (dnsCache_srv (snd (refreshCycles_object os w)))
  = JSMap.keys (dnsCache_srv w).
Proof.
  induction os as [|o os IH]; intros w; simpl; [reflexivity|].
  pose proof (refreshCycle_object_cache o w) as Hc.
  destruct (refreshCycle_object o w) as [[events w'] p].
  unfold state_of at 1 in Hc. simpl in Hc.
  destruct (exited events); simpl.
  - rewrite Hc. apply generateContext_object_keys.
  - specialize (IH w'). destruct (refreshCycles_object os w') as [events' w''].
    simpl in *. rewrite IH, Hc. apply generateContext_object_keys.
Qed.

Lemma refreshCycles_object_invariant os : forall w,
  scanned_invariant (dnsCache_srv w) ->
  scanned_invariant (dnsCache_srv (snd (refreshCycles_object os w))).
Proof.
  induction os as [|o os IH]; intros w Hinv; simpl; [exact Hinv|].
  pose proof (refreshCycle_object_cache o w) as Hc.
  pose proof (proj1 (generateContext_object_invariant o _ Hinv)) as Hinv'.
  destruct (refreshCycle_object o w) as [[events w'] p].
  unfold state_of at 1 in Hc. simpl in Hc. rewrite <- Hc in Hinv'.
  destruct (exited events); simpl; [exact Hinv'|].
  specialize (IH w' Hinv'). now destruct (refreshCycles_object os w').
Qed.

Lemma dryRun_all_undefined (services : cache) :
  (forall k, cache_get services k = Undefined) ->
  forall k, cache_get (dryRun services) k = Undefined.
Proof.
  intros Hall k. change (dryRun services) with (scan template services).
  unfold cache_get.
  destruct (in_dec string_dec k (templateKeys template)) as [Hin|Hn].
  - now rewrite scan_get_key.
  - rewrite scan_get_other by exact Hn. apply Hall.
Qed.


(** C7.  A cycle keeps the keys of the cache, in their order, and so do any
    sequence of refresh cycles and the main sequence after the template
    scan.  From the scan on, [__proto__] holds [undefined]; a cycle keeps
    that, and leaves under every key either the outcome of that cycle's
    resolution of the key (a list when it fulfilled, [undefined] otherwise)
    or [undefined].  Where the join fulfils, every key but [__proto__] holds
    the outcome of its own resolution, whatever it held before. *)
Theorem C7_key_set_is_invariant :
  (forall o w,
      JSMap.keys (dnsCache_srv (state_of (regenerateConfiguration_object o w)))
      = JSMap.keys (dnsCache_srv w))
  /\ (forall os w,
        JSMap.keys (dnsCache_srv (snd (refreshCycles_object os w)))
        = JSMap.keys (dnsCache_srv w))
  /\ (forall o w,
        JSMap.keys (dnsCache_srv (state_of (main_object o w)))
        = JSMap.keys (dnsCache_srv (checkTemplate w)))
  /\ (forall w,
        (forall k, cache_get (dnsCache_srv w) k = Undefined) ->
        scanned_invariant (dnsCache_srv (checkTemplate w)))
  /\ (forall o w,
        scanned_invariant (dnsCache_srv w) ->
        scanned_invariant
          (dnsCache_srv (state_of (regenerateConfiguration_object o w)))
        /\ forall k,
             In k (JSMap.keys (dnsCache_srv w)) ->
             cache_get
               (dnsCache_srv (state_of (regenerateConfiguration_object o w))) k
             = stored (snd (resolveSRV o k))
             \/ cache_get
                  (dnsCache_srv (state_of (regenerateConfiguration_object o w))) k
                = Undefined)
  /\ (forall os w,
        scanned_invariant (dnsCache_srv w) ->
        scanned_invariant (dnsCache_srv (snd (refreshCycles_object os w))))
  /\ (forall o w k,
        promise_of (generateContext_object o (dnsCache_srv w)) = Fulfilled tt ->
        In k (JSMap.keys (dnsCache_srv w)) -> k <> proto_key ->
        cache_get
          (dnsCache_srv (state_of (regenerateConfiguration_object o w))) k
        = stored (snd (resolveSRV o k))).
Proof.
  split; [|split; [|split; [|split; [|split; [|split]]]]].
  - intros o w. rewrite regenerateConfiguration_object_cache.
    apply generateContext_object_keys.
  - intros os w. apply refreshCycles_object_keys.
  - intros o w. rewrite main_object_cache. apply generateContext_object_keys.
  - intros w Hall.
    pose proof (dryRun_all_undefined (dnsCache_srv w) Hall) as Hu.
    split; [apply Hu | intros _ _; apply Hu].
  - intros o w Hinv. rewrite regenerateConfiguration_object_cache.
    now apply generateContext_object_invariant.
  - intros os w. apply refreshCycles_object_invariant.
  - intros o w k Hp Hin Hne. rewrite regenerateConfiguration_object_cache.
    now apply generateContext_object_get.
Qed.

(** ** Answers in another order

    What the sort by name gives when [localeCompare] is an order and no two
    records of the answer compare equal. *)

Section Order.
Hypothesis localeCompare_antisym :
  forall a b, (0 < localeCompare a b)%Z <-> (localeCompare b a < 0)%Z.
Hypothesis localeCompare_trans :
  forall a b c,
    (localeCompare a b <= 0)%Z -> (localeCompare b c <= 0)%Z ->
    (localeCompare a c <= 0)%Z.

Lemma name_le_trans : Transitive name_le.
Proof using localeCompare_trans. intros a b c. unfold name_le, byName. apply localeCompare_trans. Qed.

Lemma sort_insert_hd x y l :
  name_le y x -> HdRel name_le y l -> HdRel name_le y (sort_insert byName x l).
Proof.
  intros Hyx Hl. destruct l as [|z l]; simpl; [now constructor|].
  destruct (0 <? byName x z)%Z; constructor; [|exact Hyx].
  now inversion Hl.
Qed.

Lemma sort_insert_sorted x l :
  Sorted name_le l -> Sorted name_le (sort_insert byName x l).
Proof using localeCompare_antisym.
  induction l as [|y l IH]; simpl; intros Hs.
  - repeat constructor.
  - inversion Hs as [|? ? Hl Hhd]; subst.
    destruct (0 <? byName x y)%Z eqn:E.
    + apply Z.ltb_lt in E. constructor; [now apply IH|].
      apply sort_insert_hd; [|exact Hhd].
      unfold name_le, byName in *. apply localeCompare_antisym in E. lia.
    + apply Z.ltb_ge in E. constructor; [exact Hs|]. now constructor.
Qed.

Lemma array_sort_sorted l : Sorted name_le (array_sort byName l).
Proof using localeCompare_antisym.
  induction l as [|x l IH]; simpl; [constructor|].
  now apply sort_insert_sorted.
Qed.

Lemma array_sort_order_independent l1 l2 :
  Permutation l1 l2 ->
  (forall x y, In x l1 -> In y l1 -> byName x y = 0%Z -> x = y) ->
  array_sort byName l1 = array_sort byName l2.
Proof using localeCompare_antisym localeCompare_trans.
  intros Hperm Hdistinct.
  apply (@Sorted_unique_strong _ name_le name_le_trans);
    try apply array_sort_sorted.
  - intros x y Hx Hy Hxy Hyx.
    apply list_elem_of_In in Hx, Hy.
    apply Hdistinct.
    + eapply Permutation_in; [apply array_sort_perm | exact Hx].
    + eapply Permutation_in; [|exact Hy].
      rewrite array_sort_perm. now symmetry.
    + unfold name_le, byName in *.
      destruct (Z.eq_dec (localeCompare (srv_name x) (srv_name y)) 0%Z) as [|Hne];
        [assumption|].
      assert (Hlt : (localeCompare (srv_name x) (srv_name y) < 0)%Z) by lia.
      apply (proj2 (localeCompare_antisym _ _)) in Hlt. lia.
  - rewrite !array_sort_perm. exact Hperm.
Qed.

(** Two answers with the same records in another order, none of which
    compare equal by name, resolve to the same endpoints with the same
    queries. *)
Lemma resolveSRV_order_independent o1 o2 dnsName result1 result2 :
  dns_resolveSrv o1 dnsName = CbOk result1 ->
  dns_resolveSrv o2 dnsName = CbOk result2 ->
  (forall hostName, dns_resolve o1 hostName = dns_resolve o2 hostName) ->
  Permutation result1 result2 ->
  (forall x y, In x result1 -> In y result1 -> byName x y = 0%Z -> x = y) ->
  resolveSRV o1 dnsName = resolveSRV o2 dnsName.
Proof using localeCompare_antisym localeCompare_trans.
  intros H1 H2 Haddr Hperm Hdistinct. unfold resolveSRV. rewrite H1, H2.
  rewrite <- (Permutation_length Hperm).
  destruct (0 <? length result1)%nat; [|reflexivity].
  change (fun a b => localeCompare (srv_name a) (srv_name b)) with byName.
  rewrite <- (array_sort_order_independent result1 result2 Hperm Hdistinct).
  assert (Hip : forall entry, resolveIP o1 entry = resolveIP o2 entry)
    by (intros entry; unfold resolveIP; now rewrite Haddr).
  now rewrite (map_ext _ _ Hip).
Qed.

Lemma sorted_by_names endpoints : forall records,
  map name endpoints = map srv_name records ->
  Sorted name_le records -> Sorted endpoint_le endpoints.
Proof.
  induction endpoints as [|e es IH]; intros [|r rs] Hmap Hs;
    simpl in *; try discriminate; [constructor|].
  injection Hmap as He Hes. inversion Hs as [|? ? Hrs Hhd]; subst.
  constructor; [now apply (IH rs)|].
  destruct es as [|e' es], rs as [|r' rs]; simpl in *; try discriminate;
    constructor.
  injection Hes as He' Hes. inversion Hhd as [|? ? Hle]; subst.
  unfold endpoint_le. unfold name_le, byName in Hle. now rewrite He, He'.
Qed.

(** X6.  When [localeCompare] is antisymmetric, every list that a cycle
    stores in the cache is sorted by name. *)
Theorem X6_stored_lists_are_sorted o (services : cache) k entries :
  In k (JSMap.keys services) ->
  cache_get (state_of (generateContext o services)) k = Arr entries ->
  Sorted endpoint_le entries.
Proof using localeCompare_antisym.
  intros Hin. rewrite generateContext_get by exact Hin.
  destruct (snd (resolveSRV o k)) as [|endpoints|e] eqn:E; try discriminate.
  intros H. inversion H; subst endpoints.
  destruct (dns_resolveSrv o k) as [err|result] eqn:Hsrv.
  - unfold resolveSRV in E. rewrite Hsrv in E. discriminate.
  - apply (sorted_by_names entries (array_sort byName result)).
    + exact (resolveSRV_fulfilled o k result entries Hsrv E).
    + apply array_sort_sorted.
Qed.

End Order.

End Configurator.

(** ** The program on the concrete collaborators *)

Local Abbreviation s_resolveIP := (resolveIP Sample.isV4Format Sample.isV6Format).
Local Abbreviation s_generateContext :=
  (generateContext Sample.isV4Format Sample.isV6Format Sample.localeCompare).
Local Abbreviation s_resolveSRV :=
  (resolveSRV Sample.isV4Format Sample.isV6Format Sample.localeCompare).
Local Abbreviation s_newConfig :=
  (newConfig Sample.isV4Format Sample.isV6Format Sample.localeCompare
     Sample.template).
Local Abbreviation s_cycleDiff :=
  (cycleDiff Sample.isV4Format Sample.isV6Format Sample.localeCompare
     Sample.diffTrimmedLines Sample.template).
Local Abbreviation s_regenerateConfiguration :=
  (regenerateConfiguration Sample.isV4Format Sample.isV6Format
     Sample.localeCompare Sample.diffTrimmedLines Sample.template).
Local Abbreviation s_refreshCycle :=
  (refreshCycle Sample.isV4Format Sample.isV6Format Sample.localeCompare
     Sample.diffTrimmedLines Sample.template).
Local Abbreviation s_refreshCycles :=
  (refreshCycles Sample.isV4Format Sample.isV6Format Sample.localeCompare
     Sample.diffTrimmedLines Sample.template).
Local Abbreviation s_main :=
  (main Sample.isV4Format Sample.isV6Format Sample.localeCompare
     Sample.diffTrimmedLines Sample.template).
Local Abbreviation dup_regenerateConfiguration :=
  (regenerateConfiguration Sample.isV4Format Sample.isV6Format
     Sample.localeCompare Sample.diffTrimmedLines Sample.template_dup).

(** The world after the template scan, before HAProxy runs and once it does,
    and the world in which the file already holds the text of the cycle. *)
Local Abbreviation w_scanned := (mkWorld Sample.scanned None false).
Local Abbreviation w_running := (mkWorld Sample.scanned None true).
Local Abbreviation w_settled :=
  (mkWorld Sample.scanned (Some (s_newConfig Sample.calm w_scanned)) true).

(** The scan of the template finds its two keys, whatever the cache held. *)
Example checkTemplate_scans :
  dnsCache_srv (checkTemplate Sample.template Sample.fresh) = Sample.scanned
  /\ dnsCache_srv (checkTemplate Sample.template
                     (checkTemplate Sample.template Sample.fresh))
     = Sample.scanned.
Proof. split; reflexivity. Qed.

(** The first start: the file is written before HAProxy runs, without a
    reload, and the main sequence goes on to the timer. *)
Example main_first_start :
  events_of (s_main Sample.calm Sample.fresh)
  = [EvResolveSrv "web.svc"; EvResolve "a.node"; EvResolve "b.node";
     EvResolveSrv "db.svc";
     EvWriteFile (s_newConfig Sample.calm w_scanned);
     EvVerify; EvStart; EvSetInterval; EvReportSuccess; EvLogStats]
  /\ promise_of (s_main Sample.calm Sample.fresh) = Fulfilled tt.
Proof. split; reflexivity. Qed.

(** The next cycle gets the records of [web.svc] in the other order: the
    cache and the text are the same, nothing is written or reloaded. *)
Example second_cycle_reordered :
  s_refreshCycle Sample.calm_reordered (state_of (s_main Sample.calm Sample.fresh))
  = ([EvResolveSrv "web.svc"; EvResolve "a.node"; EvResolve "b.node";
      EvResolveSrv "db.svc"],
     state_of (s_main Sample.calm Sample.fresh), Pending).
Proof. reflexivity. Qed.

Lemma Sample_localeCompare_antisym a b :
  (0 < Sample.localeCompare a b)%Z <-> (Sample.localeCompare b a < 0)%Z.
Proof.
  unfold Sample.localeCompare.
  pose proof (String_as_OT.cmp_antisym b a) as H.
  unfold String_as_OT.cmp in H. rewrite H.
  destruct (String.compare a b); simpl; lia.
Qed.

Lemma Sample_localeCompare_trans a b c :
  (Sample.localeCompare a b <= 0)%Z -> (Sample.localeCompare b c <= 0)%Z ->
  (Sample.localeCompare a c <= 0)%Z.
Proof.
  unfold Sample.localeCompare.
  destruct (String.compare a b) eqn:Hab; try lia;
    destruct (String.compare b c) eqn:Hbc; try lia; intros _ _.
  - apply String_as_OT.cmp_eq in Hab. subst b. rewrite Hbc. lia.
  - apply String_as_OT.cmp_eq in Hab. subst b. rewrite Hbc. lia.
  - apply String_as_OT.cmp_eq in Hbc. subst c. rewrite Hab. lia.
  - apply String_as_OT.cmp_lt in Hab, Hbc.
    pose proof (String_as_OT.lt_trans _ _ _ Hab Hbc) as Hac.
    apply String_as_OT.cmp_lt in Hac.
    unfold String_as_OT.cmp in Hac. rewrite Hac. lia.
Qed.

(** The two orders of the answer for [web.svc] resolve alike. *)
Example web_order_independent :
  s_resolveSRV Sample.calm "web.svc" = s_resolveSRV Sample.calm_reordered "web.svc".
Proof.
  eapply (resolveSRV_order_independent _ _ _ Sample_localeCompare_antisym
            Sample_localeCompare_trans); try reflexivity.
  - apply perm_swap.
  - intros x y [<-|[<-|[]]] [<-|[<-|[]]]; vm_compute; congruence.
Qed.

(** ** Witnesses and counterexamples *)

(** After a cycle [db.svc] holds [undefined]: its block is left out. *)
Lemma C1_unresolved_block_is_ignored_witness :
  cache_get (state_of (s_generateContext Sample.calm Sample.scanned)) "db.svc"
  = Undefined
  /\ render Sample.template (state_of (s_generateContext Sample.calm Sample.scanned))
     = render_with (without "db.svc" Sample.template)
         (state_of (s_generateContext Sample.calm Sample.scanned)).
Proof.
  split; [reflexivity|].
  exact (proj2
           (proj1 (C1_unresolved_block_is_ignored Sample.template
                     (state_of (s_generateContext Sample.calm Sample.scanned))
                     "db.svc")
              eq_refl)).
Defined.

(** The empty list is not ignored: a key that holds [[]] is truthy, so its
    block is called and its text is part of the rendering. *)
Lemma C1_empty_list_block_is_rendered :
  cache_get [("web.svc", Arr [])] "web.svc" = Arr []
  /\ gatherDataHelper [("web.svc", Arr [])] "web.svc" (Sample.backend "web")
     = Some (Sample.backend "web" (Arr []))
  /\ gatherDataHelper [("web.svc", Arr [])] "web.svc" (Sample.backend "web")
     <> None
  /\ render Sample.template [("web.svc", Arr [])]
     <> render_with (without "web.svc" Sample.template) [("web.svc", Arr [])].
Proof.
  repeat split; try reflexivity; vm_compute; discriminate.
Qed.


Lemma C4_all_targets_or_unresolved_witness :
  In "half.svc" (JSMap.keys [("half.svc", Arr [])])
  /\ dns_resolveSrv Sample.calm "half.svc"
     = CbOk [mkSrv "a.node" 80 0 0; mkSrv "missing.node" 80 0 0]
  /\ dns_resolve Sample.calm "missing.node" = CbErr "ENOTFOUND"
  /\ cache_get (state_of (s_generateContext Sample.calm [("half.svc", Arr [])]))
       "half.svc"
     = Undefined.
Proof.
  split; [left; reflexivity|]. split; [reflexivity|]. split; [reflexivity|].
  exact (proj1
           (C4_all_targets_or_unresolved Sample.isV4Format Sample.isV6Format
              Sample.localeCompare Sample.calm [("half.svc", Arr [])]
              "half.svc" [mkSrv "a.node" 80 0 0; mkSrv "missing.node" 80 0 0]
              (or_introl eq_refl) eq_refl)
           (mkSrv "missing.node" 80 0 0) "ENOTFOUND"
           (or_intror (or_introl eq_refl)) eq_refl eq_refl).
Defined.

Lemma C5_literal_address_is_not_looked_up_witness :
  Sample.isV4Format "10.0.0.9" || Sample.isV6Format "10.0.0.9" = true
  /\ s_resolveIP Sample.calm (mkSrv "10.0.0.9" 5432 0 0)
     = ([], Fulfilled (mkEndpoint "10.0.0.9" (Some "10.0.0.9") 5432 0 0)).
Proof.
  split; [reflexivity|].
  exact (proj1
           (C5_literal_address_is_not_looked_up Sample.isV4Format
              Sample.isV6Format Sample.localeCompare Sample.calm
              (mkSrv "10.0.0.9" 5432 0 0) eq_refl)).
Defined.

(** C6 at two answers for [dup.svc] that hold the same two records, one host
    on two ports, in the two orders: the records compare equal by name, the
    sort leaves each answer in its own order, the cache holds two different
    lists, the rendered texts differ, and the cycle that gets the second
    answer after the first rewrites the file. *)
Theorem C6_tied_names_keep_the_answer_order :
  (exists result1 result2,
      dns_resolveSrv Sample.calm "dup.svc" = CbOk result1
      /\ dns_resolveSrv Sample.calm_swapped "dup.svc" = CbOk result2
      /\ Permutation result1 result2)
  /\ (forall hostName,
        dns_resolve Sample.calm hostName = dns_resolve Sample.calm_swapped hostName)
  /\ cache_get (state_of (s_generateContext Sample.calm [("dup.svc", Undefined)]))
       "dup.svc"
     <> cache_get
          (state_of (s_generateContext Sample.calm_swapped [("dup.svc", Undefined)]))
          "dup.svc"
  /\ render Sample.template_dup
       (state_of (s_generateContext Sample.calm [("dup.svc", Undefined)]))
     <> render Sample.template_dup
          (state_of (s_generateContext Sample.calm_swapped [("dup.svc", Undefined)]))
  /\ exists content,
       In (EvWriteFile content)
         (events_of
            (dup_regenerateConfiguration Sample.calm_swapped
               (state_of
                  (dup_regenerateConfiguration Sample.calm
                     (mkWorld [("dup.svc", Undefined)] None false))))).
Proof.
  split.
  { eexists _, _. split; [reflexivity|]. split; [reflexivity|]. apply perm_swap. }
  split; [reflexivity|].
  split; [vm_compute; discriminate|].
  split; [vm_compute; discriminate|].
  eexists. vm_compute. right. right. right. left. reflexivity.
Qed.




(** ** The key [__proto__] on the concrete collaborators *)

(** The lookup for [__proto__] answers, and under a [hashSettled] that reads
    the own properties its outcome is not stored: the join fulfils and the
    key still holds [undefined]. *)
Example proto_outcome_is_not_stored :
  snd (s_resolveSRV Sample.calm_proto "__proto__")
  = Fulfilled [mkEndpoint "a.node" (Some "10.0.0.1") 80 0 0]
  /\ generateContext_object Sample.isV4Format Sample.isV6Format
       Sample.localeCompare false Sample.calm_proto Sample.scanned_proto
     = ([EvResolveSrv "db.svc"; EvResolveSrv "__proto__"; EvResolve "a.node"],
        Sample.scanned_proto, Fulfilled tt).
Proof. split; reflexivity. Qed.

(** Under a [hashSettled] that adopts its argument the join rejects, and the
    scheduler's cycle ends the process. *)
Example proto_join_rejects :
  promise_of
    (generateContext_object Sample.isV4Format Sample.isV6Format
       Sample.localeCompare true Sample.calm_proto Sample.scanned_proto)
  = Rejected "TypeError: Method Promise.prototype.then called on incompatible receiver"
  /\ events_of
       (refreshCycle_object Sample.isV4Format Sample.isV6Format
          Sample.localeCompare Sample.diffTrimmedLines Sample.template true
          Sample.calm_proto (mkWorld Sample.scanned_proto None true))
     = [EvResolveSrv "db.svc"; EvResolveSrv "__proto__"; EvExit (-1)].
Proof. split; reflexivity. Qed.


(** ** Witnesses of the further properties *)

Local Abbreviation w_stale :=
  (mkWorld [("web.svc", Arr []); ("db.svc", Arr [])] None false).

Lemma X5_endpoints_are_the_sorted_answer_witness :
  dns_resolveSrv Sample.calm "web.svc"
  = CbOk [mkSrv "b.node" 80 0 0; mkSrv "a.node" 80 0 0]
  /\ snd (s_resolveSRV Sample.calm "web.svc")
     = Fulfilled [mkEndpoint "a.node" (Some "10.0.0.1") 80 0 0;
                  mkEndpoint "b.node" (Some "10.0.0.2") 80 0 0]
  /\ [mkEndpoint "a.node" (Some "10.0.0.1") 80 0 0;
      mkEndpoint "b.node" (Some "10.0.0.2") 80 0 0]
     = map (fun r => with_ip r
                       (address_of Sample.isV4Format Sample.isV6Format
                          Sample.calm (srv_name r)))
         (array_sort (byName Sample.localeCompare)
            [mkSrv "b.node" 80 0 0; mkSrv "a.node" 80 0 0]).
Proof.
  split; [reflexivity|]. split; [reflexivity|].
  exact (X5_endpoints_are_the_sorted_answer Sample.isV4Format Sample.isV6Format
           Sample.localeCompare Sample.calm "web.svc" _ _ eq_refl eq_refl).
Defined.

Lemma X6_stored_lists_are_sorted_witness :
  In "web.svc" (JSMap.keys Sample.scanned)
  /\ Sorted (endpoint_le Sample.localeCompare)
       [mkEndpoint "a.node" (Some "10.0.0.1") 80 0 0;
        mkEndpoint "b.node" (Some "10.0.0.2") 80 0 0].
Proof.
  split; [left; reflexivity|].
  exact (X6_stored_lists_are_sorted Sample.isV4Format Sample.isV6Format
           Sample.localeCompare Sample_localeCompare_antisym Sample.calm
           Sample.scanned "web.svc" _ (or_introl eq_refl) eq_refl).
Defined.

Lemma X9_rendered_text_uses_only_fresh_data_witness :
  JSMap.keys (dnsCache_srv w_scanned) = JSMap.keys (dnsCache_srv w_stale)
  /\ s_newConfig Sample.calm w_scanned = s_newConfig Sample.calm w_stale.
Proof.
  split; [reflexivity|].
  exact (X9_rendered_text_uses_only_fresh_data Sample.isV4Format
           Sample.isV6Format Sample.localeCompare Sample.template
           Sample.calm Sample.calm w_scanned w_stale eq_refl
           (fun _ _ => eq_refl) (fun _ => eq_refl)).
Defined.

Lemma X10_all_lookups_fail_renders_static_text_witness :
  dns_resolveSrv Sample.offline "web.svc" = CbErr "ECONNREFUSED"
  /\ s_newConfig Sample.offline w_stale = staticText Sample.template.
Proof.
  split; [reflexivity|].
  exact (proj2
           (X10_all_lookups_fail_renders_static_text Sample.isV4Format
              Sample.isV6Format Sample.localeCompare Sample.template
              Sample.offline w_stale
              (fun _ _ => ex_intro _ "ECONNREFUSED" eq_refl))).
Defined.






Lemma X18_no_reload_before_start_witness :
  haproxyRunning Sample.fresh = false
  /\ ~ In EvReload (events_of (s_main Sample.calm Sample.fresh)).
Proof.
  split; [reflexivity|].
  exact (proj1
           (X18_no_reload_before_start Sample.isV4Format Sample.isV6Format
              Sample.localeCompare Sample.diffTrimmedLines Sample.template
              Sample.calm [Sample.calm_reordered] Sample.fresh eq_refl)).
Defined.




